(** * tailfs composite WebDAV layer: metadata cache, router, virtual directory

    A shallow embedding of
    - [tailfs/tailfsimpl/compositedav/stat_cache.go] (StatCache),
    - the compositedav Handler (Child, ServeHTTP, delegate, SetChildren,
      GetChild, Close, findChildLocked, maxPathLength),
    - the virtual directory file system of package dirfs, of which only the
      tests are at hand,
    and the properties the specification states about them.

    Conventions.  A Go [string] is a [string] (a sequence of bytes, compared
    bytewise as [strings.Compare] does).  Go's [int], [time.Duration] and
    points in time are [Z]; durations and times are in nanoseconds.  A
    [[]byte] is [option (list Byte.byte)], with [None] the nil slice, which
    is what [StatCache.get] returns for a miss.  Pointers to mutable objects
    are modelled by threading the object's state through every operation that
    mutates it. *)

From stdpp Require Import base numbers option list gmap strings sorting.
From Stdlib Require Import ZArith Lia Ascii.

Local Open Scope Z_scope.

(** Go's [[]byte]: [None] is the nil slice. *)
Definition bytes : Type := option (list Byte.byte).

(** ** The expiring cache of github.com/jellydator/ttlcache/v3

    Third-party library; modelled from its documented behaviour, as far as
    StatCache uses it: one cache holds items keyed by string, every item
    carries its own time-to-live and expiry instant; an item whose
    time-to-live is not positive never expires. *)
Module ttlcache.

(** [ttlcache.DefaultTTL]: use the time-to-live the cache was built with. *)
Definition DefaultTTL : Z := 0.

Record Item : Type := mkItem {
  Value : bytes;
  TTL : Z;
  ExpiresAt : Z
}.

Record Cache : Type := mkCache {
  options_ttl : Z;               (* WithTTL *)
  items : gmap string Item;
  running : bool                 (* the expiration loop of Start is active *)
}.

(** [item.touch]: the expiry instant moves to now + ttl, when ttl > 0. *)
Definition touch (it : Item) (now : Z) : Item :=
  if 0 <? TTL it
  then {| Value := Value it; TTL := TTL it; ExpiresAt := now + TTL it |}
  else it.

Definition newItem (value : bytes) (ttl : Z) (now : Z) : Item :=
  touch {| Value := value; TTL := ttl; ExpiresAt := 0 |} now.

(** [item.IsExpired]. *)
Definition IsExpired (it : Item) (now : Z) : bool :=
  (0 <? TTL it) && (ExpiresAt it <? now).

(** [ttlcache.New(ttlcache.WithTTL(ttl))]. *)
Definition New (ttl : Z) : Cache :=
  {| options_ttl := ttl; items := ∅; running := false |}.

(** [cache.Start()], run in its own goroutine by the caller. *)
Definition Start (c : Cache) : Cache :=
  {| options_ttl := options_ttl c; items := items c; running := true |}.

(** [cache.Stop()]: hands the stop signal to the expiration loop and
    returns once the loop has taken it.  With no loop running nobody takes
    the signal and the call never returns: [None]. *)
Definition Stop (c : Cache) : option Cache :=
  if running c
  then Some {| options_ttl := options_ttl c; items := items c; running := false |}
  else None.

(** [cache.Set(key, value, ttl)] ([Set] is a reserved word here): creates
    or overwrites the item and restarts its clock. *)
Definition Set' (c : Cache) (key : string) (value : bytes) (ttl : Z)
    (now : Z) : Cache :=
  let ttl := if ttl =? DefaultTTL then options_ttl c else ttl in
  {| options_ttl := options_ttl c;
     items := <[key := newItem value ttl now]> (items c);
     running := running c |}.

(** [cache.Get(key)]: nil for a missing or expired item; a hit touches the
    item (the library's default), so the cache changes too. *)
Definition Get (c : Cache) (key : string) (now : Z) : option Item * Cache :=
  match items c !! key with
  | None => (None, c)
  | Some it =>
      if IsExpired it now then (None, c)
      else
        let it' := touch it now in
        (Some it',
         {| options_ttl := options_ttl c;
            items := <[key := it']> (items c);
            running := running c |})
  end.

(** [cache.DeleteAll()]. *)
Definition DeleteAll (c : Cache) : Cache :=
  {| options_ttl := options_ttl c; items := ∅; running := running c |}.

(** One pass of the expiration loop started by [Start]: the items that
    have expired by [now] are dropped. *)
Definition sweep (c : Cache) (now : Z) : Cache :=
  {| options_ttl := options_ttl c;
     items := filter (λ kv, IsExpired kv.2 now = false) (items c);
     running := running c |}.

End ttlcache.

(** ** What the handler uses of net/url and net/http *)
Module url.

Record URL : Type := mkURL {
  Scheme : string;
  Host : string;
  Path : string;
  RawQuery : string
}.

End url.

Module http.

Definition StatusNotFound : Z := 404.
Definition StatusInternalServerError : Z := 500.

Record Request : Type := mkRequest {
  Method : string;
  URL : url.URL;
  Host : string;
  Body : bytes
}.

(** What a handler has written to its [http.ResponseWriter]. *)
Record Response : Type := mkResponse {
  StatusCode : Z;
  ResponseBody : string
}.

(** [http.RoundTripper] values; only a [*http.Transport] keeps idle
    connections that can be closed. *)
Inductive RoundTripper : Type :=
| Transport (id : nat)
| OtherRoundTripper (id : nat).

Global Instance RoundTripper_eq_dec : EqDecision RoundTripper.
Proof. solve_decision. Defined.

End http.

(** [strings.Compare]: bytewise lexicographic order, as -1, 0 or +1. *)
Definition strings_Compare (a b : string) : Z :=
  match String.compare a b with
  | Lt => -1
  | Eq => 0
  | Gt => 1
  end.

(** ** What the handler uses of package slices *)
Module slices.
Section Slices.
Context {E T : Type}.

(** The loop of [slices.BinarySearchFunc], from the state (i, j):
<<
  for i < j {
    h := int(uint(i+j) >> 1)
    if cmp(x[h], target) < 0 { i = h + 1 } else { j = h }
  }
>>
    Every turn shrinks j - i, so [fuel] = j - i turns are enough. *)
Fixpoint search (fuel : nat) (x : list E) (target : T) (cmp : E → T → Z)
    (i j : nat) : nat :=
  match fuel with
  | O => i
  | S fuel =>
      if bool_decide (i < j)%nat then
        let h := ((i + j) / 2)%nat in
        match x !! h with
        | Some e =>
            if cmp e target <? 0
            then search fuel x target cmp (h + 1)%nat j
            else search fuel x target cmp i h
        | None => i           (* out of range; never reached, h < j ≤ n *)
        end
      else i
  end.

(** [slices.BinarySearchFunc(x, target, cmp)]: the position where
    [target] is found, or where it would go, and whether it is there:
    [return i, i < n && cmp(x[i], target) == 0]. *)
Definition BinarySearchFunc (x : list E) (target : T) (cmp : E → T → Z)
    : nat * bool :=
  let n := length x in
  let i := search n x target cmp 0 n in
  (i, match x !! i with
      | Some e => bool_decide (cmp e target = 0)
      | None => false
      end).

(** The order a comparison function stands for: a is not after b. *)
Definition notAfter (cmp : E → E → Z) : relation E := λ a b, cmp a b <= 0.

Global Instance notAfter_dec cmp : RelDecision (notAfter cmp).
Proof. intros a b. unfold notAfter. apply _. Defined.

(** [slices.SortFunc(x, cmp)].  Go promises a sorted rearrangement and
    no order among elements that compare equal; a merge sort stands for
    it, and the proofs below use nothing but those two facts. *)
Definition SortFunc (x : list E) (cmp : E → E → Z) : list E :=
  merge_sort (notAfter cmp) x.

End Slices.
End slices.

(** ** The virtual directory file system (package dirfs)

    Only [dirfs_test.go] is at hand: the types below are the ones the tests
    build, the operations are modelled from the specification. *)
Module dirfs.

Record Child : Type := mkChild { Name : string }.

Global Instance Child_eq_dec : EqDecision Child.
Proof. solve_decision. Defined.

(** [FS{StaticRoot, Children}]; the clock is the [now] handed to [Stat]. *)
Record FS : Type := mkFS {
  StaticRoot : string;
  Children : list Child
}.

(** [os.ErrNotExist] and [os.ErrPermission]. *)
Inductive Error : Type := ErrNotExist | ErrPermission.

(** [shared.StaticFileInfo], as the tests build it. *)
Record StaticFileInfo : Type := mkInfo {
  Named : string;
  Sized : Z;
  ModdedTime : Z;
  Dir : bool
}.

(** Modelled from the spec: the pieces of a path between its slashes, the
    empty ones included (the helper of package shared is not among the
    sources). *)
Fixpoint splitSlash (s : string) : list string :=
  match s with
  | EmptyString => [EmptyString]
  | String a s' =>
      if Ascii.eqb a "/"%char
      then EmptyString :: splitSlash s'
      else match splitSlash s' with
           | p :: ps => String a p :: ps
           | [] => [String a EmptyString]
           end
  end.

(** Modelled from the spec: the splitting of a path into its segments
    (the helper of package shared is not among the sources).  The pieces
    between slashes, the empty ones left out, so that the empty path and
    ["/"] both have no segment and are the root. *)
Definition segments (path : string) : list string :=
  filter (λ p, p ≠ EmptyString) (splitSlash path).

(** The virtual nodes: the root, the static root, one per backend. *)
Inductive Node : Type :=
| Root
| StaticRootNode
| Backend (c : Child).

(** Modelled from the spec: the lookup of a registered backend by name
    (the source of FS is not at hand). *)
Definition childFor (fs : FS) (name : string) : option Child :=
  List.find (λ c, String.eqb (Name c) name) (Children fs).

(** Modelled from the spec: which virtual node a path names (the source of
    FS is not at hand).  The root is the empty path or ["/"]; with a static root
    configured the static root is the path of that one name and a backend
    is [staticRoot/backendName]; with none configured the backends sit
    directly under the root. *)
Definition resolve (fs : FS) (path : string) : option Node :=
  match segments path with
  | [] => Some Root
  | [s] =>
      if decide (StaticRoot fs = EmptyString) then Backend <$> childFor fs s
      else if decide (s = StaticRoot fs) then Some StaticRootNode else None
  | [s; n] =>
      if decide (StaticRoot fs = EmptyString) then None
      else if decide (s = StaticRoot fs) then Backend <$> childFor fs n else None
  | _ => None
  end.

Definition nodeName (fs : FS) (n : Node) : string :=
  match n with
  | Root => EmptyString
  | StaticRootNode => StaticRoot fs
  | Backend c => Name c
  end.

(** Modelled from the spec: [FS.Stat] (the source of FS is not at hand):
    a virtual node is a directory of size 0 stamped with the clock's
    current time; any other path does not exist. *)
Definition Stat (fs : FS) (now : Z) (path : string) : StaticFileInfo + Error :=
  match resolve fs path with
  | Some n =>
      inl {| Named := nodeName fs n; Sized := 0; ModdedTime := now; Dir := true |}
  | None => inr ErrNotExist
  end.

(** Modelled from the spec: [FS.Mkdir] (the source of FS is not at hand):
    a no-op that succeeds on a path naming an existing virtual node, and
    Permission-Denied on anything else.  The result is the file system
    afterwards and the error, [None] for nil. *)
Definition Mkdir (fs : FS) (path : string) : FS * option Error :=
  match resolve fs path with
  | Some _ => (fs, None)
  | None => (fs, Some ErrPermission)
  end.

(** Modelled from the spec: [FS.RemoveAll] (the source of FS is not at
    hand): nothing is ever removed, the call fails with Permission-Denied.
    The spec fixes the answer for virtual-level paths only; deeper paths
    go to a backend and never come here, and get the same answer. *)
Definition RemoveAll (fs : FS) (path : string) : FS * option Error :=
  (fs, Some ErrPermission).

(** Modelled from the spec: [FS.Rename] (the source of FS is not at hand):
    nothing is ever moved, the call fails with Permission-Denied, whatever
    the target. *)
Definition Rename (fs : FS) (oldPath newPath : string) : FS * option Error :=
  (fs, Some ErrPermission).

(** The fixture of [createFileSystem] in dirfs_test.go. *)
Definition testFS : FS :=
  {| StaticRoot := "domain";
     Children := [ {| Name := "remote1" |}; {| Name := "remote2" |};
                   {| Name := "remote4" |} ] |}.

(** The segment lists that name a virtual node: none (the root), the
    static root's name alone, and a registered backend name, below the
    static root when one is configured. *)
Inductive namesVirtual (fs : FS) : list string → Prop :=
| names_root : namesVirtual fs []
| names_static_root :
    StaticRoot fs ≠ EmptyString → namesVirtual fs [StaticRoot fs]
| names_backend_below c :
    StaticRoot fs ≠ EmptyString → c ∈ Children fs →
    namesVirtual fs [StaticRoot fs; Name c]
| names_backend c :
    StaticRoot fs = EmptyString → c ∈ Children fs →
    namesVirtual fs [Name c].

End dirfs.

(** ** Package compositedav: StatCache (stat_cache.go) and Handler *)
Module compositedav.

Record StatCache : Type := mkStatCache {
  TTL : Z;
  (* nil until the first set *)
  caches : option (gmap Z ttlcache.Cache)
}.

(** [func (c *StatCache) get(name string, depth int) []byte], called at
    time [now]; the second component is the cache afterwards. *)
Definition get (c : StatCache) (name : string) (depth : Z) (now : Z)
    : bytes * StatCache :=
  match caches c with
  | None => (None, c)
  | Some m =>
      match m !! depth with
      | None => (None, c)
      | Some cache =>
          match ttlcache.Get cache name now with
          | (None, _) => (None, c)
          | (Some item, cache') =>
              (ttlcache.Value item,
               {| TTL := TTL c; caches := Some (<[depth := cache']> m) |})
          end
      end
  end.

(** [func (c *StatCache) set(name string, depth int, value []byte)]. *)
Definition set (c : StatCache) (name : string) (depth : Z) (value : bytes)
    (now : Z) : StatCache :=
  let m := match caches c with None => ∅ | Some m => m end in
  let cache :=
    match m !! depth with
    | None => ttlcache.Start (ttlcache.New (TTL c))
    | Some cache => cache
    end in
  {| TTL := TTL c;
     caches :=
       Some (<[depth := ttlcache.Set' cache name value ttlcache.DefaultTTL now]> m) |}.

(** [func (c *StatCache) invalidate()]. *)
Definition invalidate (c : StatCache) : StatCache :=
  {| TTL := TTL c; caches := (λ m : gmap Z ttlcache.Cache, ttlcache.DeleteAll <$> m) <$> caches c |}.

(** [func (c *StatCache) stop()]: the loop calls [cache.Stop()] on every
    sub-cache, in the order the map yields them, and ends when every call
    has returned; when one of them does not return, neither does [stop]:
    [None]. *)
Definition stop (c : StatCache) : option StatCache :=
  match caches c with
  | None => Some c
  | Some m =>
      if decide (map_Forall (λ _ cache, is_Some (ttlcache.Stop cache)) m)
      then Some {| TTL := TTL c; caches := Some (omap ttlcache.Stop m) |}
      else None
  end.

(** The sub-cache of a depth, if it has been created. *)
Definition subcache (c : StatCache) (depth : Z) : option ttlcache.Cache :=
  caches c ≫= (λ m, m !! depth).

(** The item stored under (name, depth), expired or not. *)
Definition stored (c : StatCache) (name : string) (depth : Z)
    : option ttlcache.Item :=
  subcache c depth ≫= (λ cache, ttlcache.items cache !! name).

(** The time-to-live an item set at [depth] gets: that of the depth's
    sub-cache, fixed when the sub-cache was created, and [TTL c] when the
    set creates it. *)
Definition ttlAt (c : StatCache) (depth : Z) : Z :=
  match subcache c depth with
  | Some cache => ttlcache.options_ttl cache
  | None => TTL c
  end.

(** An item set at time [t0] with time-to-live [ttl] has not expired at
    time [t1]. *)
Definition unexpired (ttl t0 t1 : Z) : Prop := ttl <= 0 ∨ t1 <= t0 + ttl.

(** The expiration loops of all sub-caches make a pass at time [now]. *)
Definition sweepAll (c : StatCache) (now : Z) : StatCache :=
  {| TTL := TTL c;
     caches :=
       (λ m : gmap Z ttlcache.Cache, (λ cache, ttlcache.sweep cache now) <$> m)
         <$> caches c |}.

(** *** Child *)

(** [httputil.ReverseProxy{Transport: c.Transport, Rewrite: func(...) {}}] *)
Record ReverseProxy : Type := mkReverseProxy {
  rp_Transport : option http.RoundTripper
}.

Record Child : Type := mkChild {
  dirfs_Child : dirfs.Child;                 (* embedded dirfs.Child *)
  BaseURL : string;
  Transport : option http.RoundTripper;      (* None: not specified *)
  rp : option ReverseProxy                   (* nil until init; set once *)
}.

Global Instance ReverseProxy_eq_dec : EqDecision ReverseProxy.
Proof. solve_decision. Defined.

Global Instance Child_eq_dec : EqDecision Child.
Proof. solve_decision. Defined.

(** The promoted field [Name] of the embedded [dirfs.Child]. *)
Definition Name (c : Child) : string := dirfs.Name (dirfs_Child c).

(** [func (c *Child) CloseIdleConnections()]: the transports whose idle
    connections get closed; none unless the transport is a
    [*http.Transport]. *)
Definition CloseIdleConnections (c : Child) : list nat :=
  match Transport c with
  | Some (http.Transport id) => [id]
  | _ => []
  end.

(** [func (c *Child) init()]: [initOnce] lets the body run once, and the
    body is the only writer of [rp], so it runs when [rp] is still nil. *)
Definition init (c : Child) : Child :=
  match rp c with
  | Some _ => c
  | None =>
      {| dirfs_Child := dirfs_Child c; BaseURL := BaseURL c;
         Transport := Transport c;
         rp := Some {| rp_Transport := Transport c |} |}
  end.

(** *** Handler *)

(** [Logf] is never read and [Clock] is only handed on to the virtual
    file system; neither is modelled. *)
Record Handler : Type := mkHandler {
  Handler_StatCache : option StatCache;      (* field StatCache; None: nil *)
  children : list Child;
  staticRoot : string
}.

(** The calls [ServeHTTP] makes, in the order it makes them. *)
Inductive Call : Type :=
| CallInvalidate                              (* h.StatCache.invalidate() *)
| CallHandlePROPFIND                          (* h.handlePROPFIND(w, r) *)
| CallDelegate (pathComponents : list string) (* h.delegate(pathComponents[mpl-1:], w, r) *)
| CallHandle.                                 (* h.handle(w, r) *)

Global Instance Call_eq_dec : EqDecision Call.
Proof. solve_decision. Defined.

(** The functions the handler calls that are not among the sources: the Go
    library ([url.Parse], [path.Join], the reverse proxy, the webdav
    handler), package shared ([CleanAndSplit], [Join]) and the handler's
    own [handlePROPFIND]. *)
Class Extern : Type := mkExtern {
  (* net/url.Parse: the URL, or the message of the error *)
  url_Parse : string → url.URL + string;
  (* path.Join *)
  path_Join : list string → string;
  (* shared.CleanAndSplit *)
  shared_CleanAndSplit : string → list string;
  (* shared.Join *)
  shared_Join : list string → string;
  (* ServeHTTP of httputil.ReverseProxy: what the proxy writes back for
     the outbound request, the backend's answer *)
  ReverseProxy_ServeHTTP : ReverseProxy → http.Request → http.Response;
  (* ServeHTTP of webdav.Handler over a dirfs.FS and a fresh lock system *)
  webdav_ServeHTTP : dirfs.FS → http.Request → http.Response;
  (* the handler's method handlePROPFIND *)
  handlePROPFIND : Handler → http.Request → Handler * http.Response
}.

Section Handler.
Context `{Extern}.

(** [func (h *Handler) maxPathLength(r *http.Request) int]; a count of
    path segments, 1 or 2, kept in [nat]. *)
Definition maxPathLength (h : Handler) (r : http.Request) : nat :=
  let mpl := 1%nat in
  if decide (staticRoot h ≠ EmptyString) then S mpl else mpl.

(** [func (h *Handler) findChildLocked(name string) (int, *Child)] *)
Definition findChildLocked (h : Handler) (name : string) : nat * option Child :=
  let '(i, found) :=
    slices.BinarySearchFunc (children h) name
      (λ child name, strings_Compare (Name child) name) in
  (i, if found then children h !! i else None).

(** [func (h *Handler) GetChild(name string) *Child] *)
Definition GetChild (h : Handler) (name : string) : option Child :=
  (findChildLocked h name).2.

(** [func (h *Handler) handle(w, r)]: the request is served by a webdav
    handler over the virtual file system of the current children. *)
Definition handle (h : Handler) (r : http.Request) : http.Response :=
  let children := dirfs_Child <$> children h in
  webdav_ServeHTTP
    {| dirfs.StaticRoot := staticRoot h; dirfs.Children := children |} r.

(** [func (h *Handler) delegate(pathComponents []string, w, r) string]:
    the returned child name and what was written to [w]; [None] is a
    run-time panic (indexing an empty slice, calling a nil proxy). *)
Definition delegate (h : Handler) (pathComponents : list string)
    (r : http.Request) : option (string * http.Response) :=
  match pathComponents with
  | [] => None
  | childName :: rest =>
      match GetChild h childName with
      | None =>
          Some (childName,
                {| http.StatusCode := http.StatusNotFound;
                   http.ResponseBody := EmptyString |})
      | Some child =>
          match url_Parse (BaseURL child) with
          | inr err =>
              Some (childName,
                    {| http.StatusCode := http.StatusInternalServerError;
                       http.ResponseBody := err |})
          | inl u =>
              let u :=
                {| url.Scheme := url.Scheme u; url.Host := url.Host u;
                   url.Path := path_Join [url.Path u; shared_Join rest];
                   url.RawQuery := url.RawQuery u |} in
              let r :=
                {| http.Method := http.Method r; http.URL := u;
                   http.Host := url.Host u; http.Body := http.Body r |} in
              match rp child with
              | None => None
              | Some proxy =>
                  Some (childName, ReverseProxy_ServeHTTP proxy r)
              end
          end
      end
  end.

(** The comparison [SetChildren] sorts with. *)
Definition byName (a b : Child) : Z := strings_Compare (Name a) (Name b).

(** [func (h *Handler) SetChildren(staticRoot string, children ...*Child)]:
    the handler afterwards, and the children whose [CloseIdleConnections]
    is called, in order.  As in the source, [oldChildren] is read from
    the argument [children], not from [h.children]. *)
Definition SetChildren (h : Handler) (staticRoot : string)
    (children : list Child) : Handler * list Child :=
  let children := init <$> children in
  let children := slices.SortFunc children byName in
  let oldChildren := children in
  ({| Handler_StatCache := Handler_StatCache h;
      children := children;
      staticRoot := staticRoot |},
   oldChildren).

(** [func (h *Handler) Close()]: the children whose
    [CloseIdleConnections] is called, and the handler once [Close] has
    returned, with the cache stopped; [None] when [StatCache.stop] does not
    return, and [Close] with it. *)
Definition Close (h : Handler) : option Handler * list Child :=
  let oldChildren := children h in
  (match Handler_StatCache h with
   | None =>
       Some {| Handler_StatCache := None; children := [];
               staticRoot := staticRoot h |}
   | Some c =>
       (λ c', {| Handler_StatCache := Some c'; children := [];
                 staticRoot := staticRoot h |}) <$> stop c
   end,
   oldChildren).

(** The transports whose idle connections a sequence of
    [CloseIdleConnections] calls closes. *)
Definition closedTransports (cs : list Child) : list nat :=
  cs ≫= CloseIdleConnections.

(** What one run of [ServeHTTP] does: the handler afterwards, the calls
    it made, and what was written to the response writer ([None]: the
    run panicked). *)
Record Served : Type := mkServed {
  after : Handler;
  calls : list Call;
  written : option http.Response
}.

(** [func (h *Handler) ServeHTTP(w http.ResponseWriter, r *http.Request)] *)
Definition ServeHTTP (h : Handler) (r : http.Request) : Served :=
  if decide (http.Method r = "PROPFIND") then
    let '(h', w) := handlePROPFIND h r in
    {| after := h'; calls := [CallHandlePROPFIND]; written := Some w |}
  else
    let '(h, invalidated) :=
      match Handler_StatCache h with
      | Some c =>
          if decide (http.Method r ≠ "GET") then
            ({| Handler_StatCache := Some (invalidate c);
                children := children h;
                staticRoot := staticRoot h |},
             [CallInvalidate])
          else (h, [])
      | None => (h, [])
      end in
    let mpl := maxPathLength h r in
    let pathComponents := shared_CleanAndSplit (url.Path (http.URL r)) in
    if decide (mpl ≤ length pathComponents)%nat then
      let pathComponents := drop (mpl - 1) pathComponents in
      {| after := h;
         calls := invalidated ++ [CallDelegate pathComponents];
         written := snd <$> delegate h pathComponents r |}
    else
      {| after := h;
         calls := invalidated ++ [CallHandle];
         written := Some (handle h r) |}.

End Handler.

(** The children of a handler are as [SetChildren] leaves them: sorted by
    name, each with its proxy built. *)
Definition installed (cs : list Child) : Prop :=
  StronglySorted (λ a b, String.le (Name a) (Name b)) cs
  ∧ Forall (λ c, is_Some (rp c)) cs.

(** Stand-ins for the external functions, to run the handler on examples:
    the URL parser accepts the addresses beginning with a slash and takes
    them as a path; joining is concatenation with slashes. *)
Definition exampleExtern : Extern :=
  {| url_Parse := λ s,
       match s with
       | String "/" _ => inl {| url.Scheme := EmptyString; url.Host := EmptyString;
                                url.Path := s; url.RawQuery := EmptyString |}
       | _ => inr "parse error"%string
       end;
     path_Join := String.concat "/";
     shared_CleanAndSplit := dirfs.segments;
     shared_Join := λ l, String.concat "/" l;
     ReverseProxy_ServeHTTP := λ _ r,
       {| http.StatusCode := 200; http.ResponseBody := url.Path (http.URL r) |};
     webdav_ServeHTTP := λ _ _,
       {| http.StatusCode := 207; http.ResponseBody := "virtual" |};
     handlePROPFIND := λ h _,
       (h, {| http.StatusCode := 207; http.ResponseBody := "propfind" |}) |}.

Global Instance installed_dec cs : Decision (installed cs).
Proof. unfold installed. apply _. Defined.

(** The methods [ServeHTTP] does not take for reads: all but GET and the
    listing request PROPFIND.  The mutating requests (PUT, MKCOL, DELETE,
    MOVE, COPY, PROPPATCH, ...) are among them. *)
Definition nonRead (method : string) : Prop :=
  method ≠ "GET" ∧ method ≠ "PROPFIND".

(** The call that ends a run of [ServeHTTP]: where the request went. *)
Definition dispatched `{Extern} (h : Handler) (r : http.Request) : option Call :=
  last (calls (ServeHTTP h r)).

(** Routing by virtual depth: a path with fewer segments than the virtual
    depth goes to the virtual file system, one with at least that many is
    delegated, segment [virtualDepth - 1] being the backend name. *)
Definition routesByDepth `{Extern} (h : Handler) (r : http.Request) : Prop :=
  let virtualDepth := maxPathLength h r in
  let segments := shared_CleanAndSplit (url.Path (http.URL r)) in
  virtualDepth = (if decide (staticRoot h = EmptyString) then 1 else 2)%nat
  ∧ ((length segments < virtualDepth)%nat →
       dispatched h r = Some CallHandle
       ∧ written (ServeHTTP h r) = Some (handle (after (ServeHTTP h r)) r))
  ∧ ((virtualDepth ≤ length segments)%nat →
       ∃ backendName,
         segments !! (virtualDepth - 1)%nat = Some backendName
         ∧ dispatched h r =
             Some (CallDelegate (backendName :: drop virtualDepth segments))
         ∧ written (ServeHTTP h r) =
             snd <$> delegate (after (ServeHTTP h r))
                       (backendName :: drop virtualDepth segments) r).

(** The cache is invalidated first, the request is routed after. *)
Definition invalidatesFirst `{Extern} (h : Handler) (r : http.Request) : Prop :=
  ∃ route,
    calls (ServeHTTP h r) = [CallInvalidate; route]
    ∧ (route = CallHandle ∨ ∃ pathComponents, route = CallDelegate pathComponents).

(** Example data: two backends, the zero handler, and requests. *)
Definition childA : Child :=
  {| dirfs_Child := {| dirfs.Name := "a" |}; BaseURL := "/srv/a";
     Transport := Some (http.Transport 1); rp := None |}.

Definition childB : Child :=
  {| dirfs_Child := {| dirfs.Name := "b" |}; BaseURL := "/srv/b";
     Transport := Some (http.Transport 2); rp := None |}.

Definition zeroHandler : Handler :=
  {| Handler_StatCache := None; children := []; staticRoot := EmptyString |}.

(** The zero handler after [SetChildren] with no static root and childA. *)
Definition handlerA : Handler := (SetChildren zeroHandler EmptyString [childA]).1.

(** A handler with a cache holding one listing, and both backends. *)
Definition cachingHandler : Handler :=
  (SetChildren
     {| Handler_StatCache :=
          Some (set {| TTL := 1000000000; caches := None |} "/a" 1
                    (Some [Byte.x31]) 0);
        children := []; staticRoot := EmptyString |}
     EmptyString [childB; childA]).1.

(** A cache after one [set]. *)
Definition exampleCache : StatCache :=
  set {| TTL := 1000000000; caches := None |} "file" 1 (Some [Byte.x31]) 0.

Definition request (method path : string) : http.Request :=
  {| http.Method := method;
     http.URL := {| url.Scheme := "http"; url.Host := "localhost";
                    url.Path := path; url.RawQuery := EmptyString |};
     http.Host := "localhost";
     http.Body := None |}.

(** Every sub-cache in the map has had its expiration loop started and
    carries the time-to-live of the StatCache, as [set] creates them. *)
Definition started (c : StatCache) : Prop :=
  ∀ depth cache, subcache c depth = Some cache →
    ttlcache.running cache = true ∧ ttlcache.options_ttl cache = TTL c.

(** A sub-cache after its [Stop] has returned. *)
Definition stopped (cache : ttlcache.Cache) : ttlcache.Cache :=
  {| ttlcache.options_ttl := ttlcache.options_ttl cache;
     ttlcache.items := ttlcache.items cache;
     ttlcache.running := false |}.





End compositedav.

(** ** client/web/src/hooks/auth.ts: [canEdit] *)
Module auth.

(** [type PeerCapability = "*" | "ssh" | "subnets" | "exitnodes" | "account"] *)
Inductive PeerCapability : Type :=
| CapAll          (* "*" *)
| CapSSH          (* "ssh" *)
| CapSubnets      (* "subnets" *)
| CapExitNodes    (* "exitnodes" *)
| CapAccount.     (* "account" *)

Inductive ServerMode : Type := Login | Readonly | Manage.

(** [viewerIdentity]; a capability the object does not hold reads as
    undefined, [None] here. *)
Record ViewerIdentity : Type := mkViewerIdentity {
  loginName : string;
  nodeName : string;
  nodeIP : string;
  profilePicUrl : option string;
  capabilities : PeerCapability → option bool
}.

(** [type AuthResponse]; an optional field that is absent is [None]. *)
Record AuthResponse : Type := mkAuthResponse {
  serverMode : ServerMode;
  authorized : bool;
  viewerIdentity : option ViewerIdentity;
  needsSynoAuth : option bool
}.

(** [v === true] *)
Definition isTrue (v : option bool) : bool :=
  match v with
  | Some true => true
  | _ => false
  end.

(** [export function canEdit(cap: PeerCapability, auth: AuthResponse): boolean] *)
Definition canEdit (cap : PeerCapability) (auth : AuthResponse) : bool :=
  match authorized auth, viewerIdentity auth with
  | true, Some identity =>
      if isTrue (capabilities identity CapAll) then true   (* can edit all features *)
      else isTrue (capabilities identity cap)
  | _, _ => false
  end.

(** A viewer allowed to edit the subnets and nothing else. *)
Definition subnetAdmin : AuthResponse :=
  {| serverMode := Manage; authorized := true;
     viewerIdentity :=
       Some {| loginName := "user@example.com"; nodeName := "node";
               nodeIP := "100.64.0.1"; profilePicUrl := None;
               capabilities := λ cap,
                 match cap with CapSubnets => Some true | _ => Some false end |};
     needsSynoAuth := None |}.

(** A viewer holding the wildcard capability only. *)
Definition owner : AuthResponse :=
  {| serverMode := Manage; authorized := true;
     viewerIdentity :=
       Some {| loginName := "owner@example.com"; nodeName := "node";
               nodeIP := "100.64.0.2"; profilePicUrl := None;
               capabilities := λ cap,
                 match cap with CapAll => Some true | _ => None end |};
     needsSynoAuth := None |}.

End auth.

(** * Properties of the metadata cache *)
Section StatCacheFacts.
Import compositedav.

Implicit Types (c : StatCache) (name : string) (depth : Z) (value : bytes).

Lemma touch_Value it now : ttlcache.Value (ttlcache.touch it now) = ttlcache.Value it.
Proof. unfold ttlcache.touch. by destruct (0 <? ttlcache.TTL it). Qed.

Lemma newItem_IsExpired value ttl t0 t1 :
  ttlcache.IsExpired (ttlcache.newItem value ttl t0) t1 = false ↔ unexpired ttl t0 t1.
Proof.
  unfold ttlcache.IsExpired, ttlcache.newItem, ttlcache.touch, unexpired; simpl.
  destruct (0 <? ttl) eqn:Httl; simpl; rewrite ?Httl; simpl.
  - apply Z.ltb_lt in Httl. rewrite Z.ltb_ge. lia.
  - apply Z.ltb_ge in Httl. split; [lia | done].
Qed.

(** What [Get] hands back, read off the item map. *)
Lemma Get_hit cache key now :
  (ttlcache.Get cache key now).1 ≫= ttlcache.Value =
  ttlcache.items cache !! key ≫=
    (λ it, if ttlcache.IsExpired it now then None else ttlcache.Value it).
Proof.
  unfold ttlcache.Get. destruct (ttlcache.items cache !! key) as [it|]; simpl; [|done].
  destruct (ttlcache.IsExpired it now); simpl; [done|]. apply touch_Value.
Qed.

(** [get] answers from the stored item, unless it has expired. *)
Lemma get_stored c name depth now :
  (get c name depth now).1 =
  stored c name depth ≫=
    (λ it, if ttlcache.IsExpired it now then None else ttlcache.Value it).
Proof.
  unfold get, stored, subcache.
  destruct (caches c) as [m|]; simpl; [|done].
  destruct (m !! depth) as [cache|]; simpl; [|done].
  rewrite <- Get_hit.
  by destruct (ttlcache.Get cache name now) as [[item|] cache'].
Qed.

Lemma stored_set_eq c name depth value t0 :
  stored (set c name depth value t0) name depth =
  Some (ttlcache.newItem value (ttlAt c depth) t0).
Proof.
  unfold stored, subcache, set, ttlAt, subcache; simpl.
  rewrite lookup_insert_eq; simpl. rewrite lookup_insert_eq.
  destruct (caches c) as [m|]; simpl; [destruct (m !! depth)|]; simpl; try done.
Qed.

(** A [set] leaves every other (name, depth) pair alone. *)
Lemma stored_set_ne c name depth value t0 name' depth' :
  (name, depth) ≠ (name', depth') →
  stored (set c name depth value t0) name' depth' = stored c name' depth'.
Proof.
  intros Hne. unfold stored, subcache, set; simpl.
  destruct (decide (depth = depth')) as [->|Hd].
  - rewrite lookup_insert_eq; simpl.
    rewrite lookup_insert_ne by congruence.
    destruct (caches c) as [m|]; simpl; [destruct (m !! depth')|]; simpl; done.
  - rewrite lookup_insert_ne by done.
    destruct (caches c) as [m|]; simpl; done.
Qed.

Lemma subcache_invalidate c depth :
  subcache (invalidate c) depth = ttlcache.DeleteAll <$> subcache c depth.
Proof.
  unfold subcache, invalidate; simpl.
  destruct (caches c) as [m|]; simpl; [|done]. apply lookup_fmap.
Qed.

Lemma stored_invalidate c name depth : stored (invalidate c) name depth = None.
Proof.
  unfold stored. rewrite subcache_invalidate.
  by destruct (subcache c depth).
Qed.

Lemma ttlAt_invalidate c depth : ttlAt (invalidate c) depth = ttlAt c depth.
Proof.
  unfold ttlAt. rewrite subcache_invalidate.
  by destruct (subcache c depth).
Qed.

(** The expiration loop only removes what [get] would not return anyway. *)
Lemma get_sweepAll c name depth t now :
  t <= now → (get (sweepAll c t) name depth now).1 = (get c name depth now).1.
Proof.
  intros Ht. rewrite !get_stored. unfold stored, subcache, sweepAll; simpl.
  destruct (caches c) as [m|]; simpl; [|done].
  rewrite lookup_fmap. destruct (m !! depth) as [cache|]; simpl; [|done].
  destruct (ttlcache.items cache !! name) as [it|] eqn:Hit.
  - destruct (ttlcache.IsExpired it t) eqn:Hexp.
    + rewrite (map_lookup_filter_None_2 _ _ name); simpl.
      * unfold ttlcache.IsExpired in *.
        apply andb_true_iff in Hexp as [-> Hlt]. apply Z.ltb_lt in Hlt.
        simpl. by rewrite (proj2 (Z.ltb_lt _ _)) by lia.
      * right. intros it' Hit'. simpl. congruence.
    + by rewrite (map_lookup_filter_Some_2 _ _ name it).
  - rewrite (map_lookup_filter_None_2 _ _ name); [done|]. by left.
Qed.

(** C5: for every name, depth and value, [set(name, depth, value)] followed
    by [get(name, depth)], with nothing in between and before the entry's
    time-to-live has run out, returns exactly the stored value. *)
Theorem C5_get_after_set c name depth value t0 t1 :
  unexpired (ttlAt c depth) t0 t1 →
  (get (set c name depth value t0) name depth t1).1 = value.
Proof.
  intros Hlive. rewrite get_stored, stored_set_eq; simpl.
  rewrite (proj2 (newItem_IsExpired _ _ _ _) Hlive).
  unfold ttlcache.newItem. by rewrite touch_Value.
Qed.

Lemma C5_get_after_set_witness :
  (get (set {| TTL := 1000000000; caches := None |} "file" 1
            (Some [Byte.x31]) 0) "file" 1 500).1 = Some [Byte.x31].
Proof.
  apply (C5_get_after_set {| TTL := 1000000000; caches := None |} "file" 1
           (Some [Byte.x31]) 0 500).
  unfold unexpired, ttlAt; simpl. lia.
Defined.

(** C6: for every name and distinct depths d1 and d2, when nothing is
    stored at (name, d2), [set(name, d1, v)] followed by [get(name, d2)]
    returns absent (nil). *)
Theorem C6_depths_independent c name d1 d2 value t0 t1 :
  d1 ≠ d2 →
  stored c name d2 = None →
  (get (set c name d1 value t0) name d2 t1).1 = None.
Proof.
  intros Hd Hnone. rewrite get_stored, stored_set_ne by congruence.
  by rewrite Hnone.
Qed.

Lemma C6_depths_independent_witness :
  (get (set {| TTL := 1000000000; caches := None |} "file" 0
            (Some [Byte.x31]) 0) "file" 1 5).1 = None.
Proof.
  apply (C6_depths_independent {| TTL := 1000000000; caches := None |} "file" 0 1
           (Some [Byte.x31]) 0 5); [lia | reflexivity].
Defined.

(** C7: after [invalidate()], [get] returns absent for every (name, depth),
    so for every entry set before; every per-depth sub-cache is still in
    the map, emptied, with its time-to-live and its running expiration loop
    as they were; and a following [set] then [get] on a key returns the
    newly stored value (read before its time-to-live runs out). *)
Theorem C7_invalidate c name depth value t t0 t1 :
  unexpired (ttlAt c depth) t0 t1 →
  (∀ name' depth', (get (invalidate c) name' depth' t).1 = None)
  ∧ (∀ depth' cache, subcache c depth' = Some cache →
       ∃ cache', subcache (invalidate c) depth' = Some cache'
         ∧ ttlcache.options_ttl cache' = ttlcache.options_ttl cache
         ∧ ttlcache.running cache' = ttlcache.running cache
         ∧ ttlcache.items cache' = ∅)
  ∧ (∀ depth', subcache (invalidate c) depth' = None ↔ subcache c depth' = None)
  ∧ (get (set (invalidate c) name depth value t0) name depth t1).1 = value.
Proof.
  intros Hlive. repeat split.
  - intros name' depth'. by rewrite get_stored, stored_invalidate.
  - intros depth' cache Hsub. exists (ttlcache.DeleteAll cache).
    rewrite subcache_invalidate, Hsub. done.
  - rewrite subcache_invalidate. by destruct (subcache c depth').
  - rewrite subcache_invalidate. by intros ->.
  - rewrite get_stored, stored_set_eq, ttlAt_invalidate; simpl.
    rewrite (proj2 (newItem_IsExpired value _ t0 t1) Hlive).
    unfold ttlcache.newItem. apply touch_Value.
Qed.

End StatCacheFacts.

(** * Order of strings and binary search *)
Section Order.

Lemma strings_Compare_eq a b : strings_Compare a b = 0 ↔ a = b.
Proof.
  split.
  - intros Hc. apply String.compare_eq_iff. unfold strings_Compare in Hc.
    destruct (String.compare a b); (done || lia).
  - intros ->. unfold strings_Compare.
    pose proof (String.compare_antisym b b) as Hanti.
    by destruct (String.compare b b).
Qed.

Lemma strings_Compare_le a b : strings_Compare a b <= 0 ↔ String.le a b.
Proof.
  unfold strings_Compare, String.le, String.leb.
  destruct (String.compare a b); simpl; split; (done || lia).
Qed.

(** Strictly below the target is inherited downwards. *)
Lemma strings_Compare_lt_le a b t :
  String.le a b → strings_Compare b t < 0 → strings_Compare a t < 0.
Proof.
  intros Hab Hbt.
  assert (String.le b t) as Hle by (apply strings_Compare_le; lia).
  assert (String.le a t) as Hat by (by etrans).
  apply strings_Compare_le in Hat.
  destruct (decide (strings_Compare a t = 0)) as [Heq|]; [|lia].
  apply strings_Compare_eq in Heq as ->.
  assert (b = t) as -> by (by apply (anti_symm String.le)).
  pose proof (proj2 (strings_Compare_eq t t) eq_refl). lia.
Qed.

Lemma StronglySorted_lookup {A} (R : relation A) (l : list A) i j a b :
  StronglySorted R l → (i < j)%nat → l !! i = Some a → l !! j = Some b → R a b.
Proof.
  intros Hs. revert i j. induction Hs as [|x l Hs IH Hall]; intros i j Hij Hi Hj.
  - done.
  - destruct j as [|j]; [lia|]. simpl in Hj.
    destruct i as [|i]; simpl in Hi.
    + injection Hi as ->. rewrite Forall_forall in Hall.
      apply Hall. by eapply list_elem_of_lookup_2.
    + apply (IH i j); [lia|done..].
Qed.

Context {E T : Type} (x : list E) (target : T) (cmp : E → T → Z).

(** The elements comparing below the target come first. *)
Hypothesis cmp_mono : ∀ k k' e e',
  (k ≤ k')%nat → x !! k = Some e → x !! k' = Some e' →
  cmp e' target < 0 → cmp e target < 0.

Lemma search_bounds fuel i j :
  (i ≤ j ≤ length x)%nat → (j - i ≤ fuel)%nat →
  (∀ k e, (k < i)%nat → x !! k = Some e → cmp e target < 0) →
  (∀ k e, (j ≤ k)%nat → x !! k = Some e → 0 <= cmp e target) →
  (∀ k e, (k < slices.search fuel x target cmp i j)%nat →
     x !! k = Some e → cmp e target < 0)
  ∧ (∀ k e, (slices.search fuel x target cmp i j ≤ k)%nat →
       x !! k = Some e → 0 <= cmp e target).
Proof.
  revert i j. induction fuel as [|fuel IH]; intros i j Hij Hfuel Hlo Hhi;
    cbn [slices.search].
  - split; [done|]. intros k e Hk. apply Hhi. lia.
  - case_bool_decide as Hlt.
    2:{ split; [done|]. intros k e Hk. apply Hhi. lia. }
    assert (i ≤ (i + j) / 2 < j)%nat as Hh.
    { pose proof (Nat.div_mod_eq (i + j) 2).
      pose proof (Nat.mod_upper_bound (i + j) 2). lia. }
    destruct (x !! ((i + j) / 2)%nat) as [e|] eqn:Hx.
    2:{ apply lookup_ge_None in Hx. lia. }
    destruct (cmp e target <? 0) eqn:Hc.
    + apply Z.ltb_lt in Hc. apply IH; [lia|lia| |done].
      intros k e' Hk Hk'. apply (cmp_mono k ((i + j) / 2)%nat e' e); [lia|done..].
    + apply Z.ltb_ge in Hc. apply IH; [lia|lia|done|].
      intros k e' Hk Hk'.
      destruct (decide (cmp e' target < 0)) as [Hneg|]; [|lia].
      pose proof (cmp_mono ((i + j) / 2)%nat k e e' Hk Hx Hk' Hneg). lia.
Qed.

(** [BinarySearchFunc] returns the first position that is not below the
    target. *)
Lemma BinarySearchFunc_spec :
  let '(i, found) := slices.BinarySearchFunc x target cmp in
  (∀ k e, (k < i)%nat → x !! k = Some e → cmp e target < 0)
  ∧ (∀ k e, (i ≤ k)%nat → x !! k = Some e → 0 <= cmp e target)
  ∧ (found = true ↔ ∃ e, x !! i = Some e ∧ cmp e target = 0).
Proof.
  unfold slices.BinarySearchFunc.
  destruct (search_bounds (length x) 0 (length x)) as [Hlo Hhi]; [lia|lia|lia| |].
  { intros k e Hk Hx. apply lookup_lt_Some in Hx. lia. }
  split; [done|]. split; [done|].
  destruct (x !! slices.search (length x) x target cmp 0 (length x)) as [e|].
  - rewrite bool_decide_eq_true. split; [eauto|]. by intros (e' & [= <-] & ?).
  - split; [done|]. by intros (e' & ? & ?).
Qed.

End Order.

(** * Properties of the handler *)
Section HandlerFacts.
Import compositedav.
Context `{Extern}.

Implicit Types (h : Handler) (r : http.Request) (c : Child) (cs : list Child).

Local Abbreviation cmpName := (λ (child : Child) (name : string),
                                 strings_Compare (Name child) name).

Lemma sorted_cmp_mono cs (target : string) :
  StronglySorted (λ a b, String.le (Name a) (Name b)) cs →
  ∀ k k' e e', (k ≤ k')%nat → cs !! k = Some e → cs !! k' = Some e' →
    cmpName e' target < 0 → cmpName e target < 0.
Proof.
  intros Hs k k' e e' Hk He He' Hlt. simpl in *.
  destruct (decide (k = k')) as [->|Hne].
  - by simplify_eq.
  - eapply strings_Compare_lt_le; [|done].
    apply (StronglySorted_lookup (λ a b, String.le (Name a) (Name b)) cs k k');
      [done|lia|done..].
Qed.

(** A child that [GetChild] returns is one of the children and bears the
    name asked for. *)
Lemma GetChild_Some h name c :
  installed (children h) → GetChild h name = Some c →
  c ∈ children h ∧ Name c = name.
Proof.
  intros [Hs _]. unfold GetChild, findChildLocked.
  pose proof (BinarySearchFunc_spec (children h) name cmpName
                (sorted_cmp_mono _ name Hs)) as Hspec.
  destruct (slices.BinarySearchFunc (children h) name cmpName) as [i found].
  destruct Hspec as (_ & _ & Hfound). simpl.
  destruct found; [|done]. intros Hi.
  destruct (proj1 Hfound eq_refl) as (e & He & Hcmp).
  rewrite Hi in He. injection He as <-. split.
  - by eapply list_elem_of_lookup_2.
  - by apply strings_Compare_eq.
Qed.

(** [GetChild] returns nil exactly when no child bears the name. *)
Lemma GetChild_None h name :
  installed (children h) →
  GetChild h name = None ↔ ∀ c, c ∈ children h → Name c ≠ name.
Proof.
  intros [Hs Hrp]. split.
  - unfold GetChild, findChildLocked.
    pose proof (BinarySearchFunc_spec (children h) name cmpName
                  (sorted_cmp_mono _ name Hs)) as Hspec.
    destruct (slices.BinarySearchFunc (children h) name cmpName) as [i found].
    destruct Hspec as (Hlo & Hhi & Hfound). simpl.
    destruct found.
    { destruct (proj1 Hfound eq_refl) as (e & -> & _). done. }
    intros _ c [k Hk]%list_elem_of_lookup_1 Hname.
    assert (cmpName c name = 0) as Hc by (by apply strings_Compare_eq).
    destruct (decide (k < i)%nat) as [Hlt|Hge].
    { pose proof (Hlo k c Hlt Hk). simpl in *. lia. }
    destruct (children h !! i) as [e|] eqn:Hi.
    2:{ apply lookup_ge_None in Hi. apply lookup_lt_Some in Hk. lia. }
    assert (0 <= cmpName e name) as Hpos by (apply (Hhi i); [lia|done]).
    assert (cmpName e name ≠ 0) as Hnz.
    { intros Hz. assert (false = true); [|done]. apply Hfound. eauto. }
    assert (String.le (Name e) (Name c)) as Hle.
    { destruct (decide (i = k)) as [->|]; [by simplify_eq|].
      apply (StronglySorted_lookup (λ a b, String.le (Name a) (Name b))
               (children h) i k); [done|lia|done..]. }
    rewrite Hname in Hle. apply strings_Compare_le in Hle. simpl in *. lia.
  - intros Hall. destruct (GetChild h name) as [c|] eqn:Hg; [|done].
    destruct (GetChild_Some h name c) as [Hin Hname]; [done..|].
    by destruct (Hall c Hin).
Qed.

Global Instance notAfter_byName_trans : Transitive (slices.notAfter byName).
Proof.
  intros a b c. unfold slices.notAfter, byName. rewrite !strings_Compare_le.
  apply transitivity.
Qed.

Global Instance notAfter_byName_total : Total (slices.notAfter byName).
Proof.
  intros a b. unfold slices.notAfter, byName. rewrite !strings_Compare_le.
  apply total, _.
Qed.

Lemma init_rp c : is_Some (rp (init c)).
Proof. unfold init. destruct (rp c) eqn:Hrp; simpl; [rewrite Hrp|]; eauto. Qed.

Lemma init_Name c : Name (init c) = Name c.
Proof. unfold init. by destruct (rp c). Qed.

(** [SetChildren] installs the children it was given, each initialised,
    sorted by name. *)
Lemma SetChildren_children h root cs :
  children (SetChildren h root cs).1 ≡ₚ init <$> cs.
Proof. simpl. unfold slices.SortFunc. apply merge_sort_Permutation. Qed.

Lemma SetChildren_installed h root cs :
  installed (children (SetChildren h root cs).1).
Proof.
  split.
  - simpl. unfold slices.SortFunc.
    pose proof (StronglySorted_merge_sort (slices.notAfter byName) (init <$> cs)) as Hs.
    induction Hs as [|x l Hs IH Hall]; constructor; [done|].
    eapply Forall_impl; [exact Hall|].
    intros y Hy. by apply strings_Compare_le.
  - rewrite SetChildren_children. apply Forall_fmap, Forall_forall.
    intros c _. apply init_rp.
Qed.

(** After [SetChildren] the lookup reflects the new set: the names found
    are the names given. *)
Lemma GetChild_SetChildren h root cs name :
  is_Some (GetChild (SetChildren h root cs).1 name) ↔ ∃ c, c ∈ cs ∧ Name c = name.
Proof.
  pose proof (SetChildren_installed h root cs) as Hinst.
  pose proof (SetChildren_children h root cs) as Hperm.
  split.
  - intros [child Hget].
    destruct (GetChild_Some _ name child Hinst Hget) as [Hin Hname].
    rewrite Hperm in Hin. apply list_elem_of_fmap in Hin as (c & -> & Hc).
    exists c. by rewrite <- init_Name.
  - intros (c & Hc & Hname).
    destruct (GetChild (SetChildren h root cs).1 name) as [child|] eqn:Hget;
      [by eexists|].
    destruct (proj1 (GetChild_None _ name Hinst) Hget (init c)).
    + rewrite Hperm. by apply list_elem_of_fmap_2.
    + by rewrite init_Name.
Qed.

(** The children of the zero handler and of a closed one are installed
    too. *)
Lemma installed_nil : installed [].
Proof. split; constructor. Qed.

(** The children [SetChildren] closes idle connections on are the ones it
    has just installed. *)
Lemma SetChildren_closes_installed h root cs :
  (SetChildren h root cs).2 = children (SetChildren h root cs).1.
Proof. done. Qed.

End HandlerFacts.

(** * The claims about the handler *)
Section HandlerClaims.
Import compositedav.
Context `{Extern}.

Implicit Types (h : Handler) (r : http.Request) (c : Child).

(** C1: the specification has [SetChildren] close the idle connections of
    the children installed before the call and never of the ones just
    installed.  The code reads [oldChildren] from its argument: on a
    handler holding child a, [SetChildren] with child b installs b and
    closes the idle connections of b (transport 2), not of a
    (transport 1). *)
Theorem C1_SetChildren_closes_new_children :
  children handlerA = [init childA]
  ∧ children (SetChildren handlerA EmptyString [childB]).1 = [init childB]
  ∧ (SetChildren handlerA EmptyString [childB]).2 = [init childB]
  ∧ closedTransports (SetChildren handlerA EmptyString [childB]).2 = [2%nat]
  ∧ closedTransports (children handlerA) = [1%nat].
Proof. by vm_compute. Qed.

Lemma ServeHTTP_not_PROPFIND h r :
  http.Method r ≠ "PROPFIND" →
  ∃ h' inv,
    (h', inv) =
      match Handler_StatCache h with
      | Some c =>
          if decide (http.Method r ≠ "GET") then
            ({| Handler_StatCache := Some (invalidate c);
                children := children h; staticRoot := staticRoot h |},
             [CallInvalidate])
          else (h, [])
      | None => (h, [])
      end
    ∧ staticRoot h' = staticRoot h
    ∧ children h' = children h
    ∧ after (ServeHTTP h r) = h'
    ∧ let mpl := maxPathLength h r in
      let segs := shared_CleanAndSplit (url.Path (http.URL r)) in
      if decide (mpl ≤ length segs)%nat then
        calls (ServeHTTP h r) = inv ++ [CallDelegate (drop (mpl - 1) segs)]
        ∧ written (ServeHTTP h r) = snd <$> delegate h' (drop (mpl - 1) segs) r
      else
        calls (ServeHTTP h r) = inv ++ [CallHandle]
        ∧ written (ServeHTTP h r) = Some (handle h' r).
Proof.
  intros Hm. unfold ServeHTTP. rewrite decide_False by done.
  destruct (Handler_StatCache h) as [c|];
    [destruct (decide (http.Method r ≠ "GET"))|];
    (eexists _, _; split; [reflexivity|]);
    unfold maxPathLength; simpl;
    (split; [done|]); (split; [done|]);
    case_decide; done.
Qed.

(** A PROPFIND request is handed to [handlePROPFIND], whatever its path. *)
Lemma PROPFIND_dispatched h r :
  http.Method r = "PROPFIND" → dispatched h r = Some CallHandlePROPFIND.
Proof.
  intros Hp. unfold dispatched, ServeHTTP. rewrite decide_True by done.
  by destruct (handlePROPFIND h r).
Qed.

(** Without a StatCache nothing is invalidated. *)
Lemma no_cache_no_invalidate h r :
  Handler_StatCache h = None → CallInvalidate ∉ calls (ServeHTTP h r).
Proof.
  intros Hnone. destruct (decide (http.Method r = "PROPFIND")) as [Hp|Hp].
  - unfold ServeHTTP. rewrite decide_True by done.
    destruct (handlePROPFIND h r). simpl. by rewrite list_elem_of_singleton.
  - destruct (ServeHTTP_not_PROPFIND h r Hp)
      as (h' & inv & Hinv & _ & _ & _ & Hroute).
    rewrite Hnone in Hinv. injection Hinv as _ Hinv'. rewrite Hinv' in Hroute.
    simpl in Hroute. case_decide; destruct Hroute as [-> _];
      by rewrite list_elem_of_singleton.
Qed.

(** X18: every request other than PROPFIND (those go to [handlePROPFIND]
    before any depth is looked at) is routed by depth: the virtual depth is
    1 without a static root and 2 with one; a path with fewer segments is
    handled by the virtual file system, one with at least that many is
    delegated, with segment [virtualDepth - 1] as the backend name. *)
Theorem X18_routes_by_depth h r :
  http.Method r ≠ "PROPFIND" → routesByDepth h r.
Proof.
  intros Hm. destruct (ServeHTTP_not_PROPFIND h r Hm)
    as (h' & inv & _ & Hroot & _ & Hafter & Hroute).
  unfold routesByDepth, dispatched. rewrite Hafter.
  assert (maxPathLength h r = (if decide (staticRoot h = EmptyString) then 1 else 2)%nat)
    as Hmpl.
  { unfold maxPathLength. by repeat case_decide. }
  split; [done|]. simpl in Hroute. split.
  - intros Hlt. rewrite decide_False in Hroute by lia.
    destruct Hroute as [-> ->]. by rewrite last_snoc.
  - intros Hge. rewrite decide_True in Hroute by lia.
    destruct Hroute as [-> ->]. rewrite last_snoc.
    destruct (shared_CleanAndSplit (url.Path (http.URL r)) !! (maxPathLength h r - 1)%nat)
      as [name|] eqn:Hname.
    2:{ apply lookup_ge_None in Hname. rewrite Hmpl in *. case_decide; lia. }
    exists name.
    assert (drop (maxPathLength h r - 1) (shared_CleanAndSplit (url.Path (http.URL r)))
            = name :: drop (maxPathLength h r)
                        (shared_CleanAndSplit (url.Path (http.URL r)))) as ->.
    { rewrite (drop_S _ name (maxPathLength h r - 1)) by done.
      do 2 f_equal. rewrite Hmpl. case_decide; lia. }
    done.
Qed.

(** C4, amended: when a StatCache is configured, every request whose
    method is a non-read one has the cache invalidated first and is routed
    (handled or delegated) after, on the handler with the emptied cache. *)
Theorem C4_invalidate_before_routing h r cache :
  Handler_StatCache h = Some cache →
  nonRead (http.Method r) →
  invalidatesFirst h r
  ∧ Handler_StatCache (after (ServeHTTP h r)) = Some (invalidate cache).
Proof.
  intros Hc [Hget Hprop]. destruct (ServeHTTP_not_PROPFIND h r Hprop)
    as (h' & inv & Hinv & _ & _ & Hafter & Hroute).
  rewrite Hc, decide_True in Hinv by done. injection Hinv as Hh' Hinv'.
  rewrite Hafter, Hh'. split; [|done]. unfold invalidatesFirst.
  rewrite Hinv' in Hroute. simpl in Hroute.
  case_decide; destruct Hroute as [-> _]; eexists; eauto.
Qed.

(** C3: a delegated request whose backend name is borne by no child of the
    sorted set is answered Not-Found; when a child bears it, the binary
    search returns such a child, and either its base address does not
    parse and the answer is an internal error carrying the parser's
    message, or the request, its target rewritten to the base address
    joined with the remaining segments, goes through that child's proxy
    and what the proxy writes is the answer, as it is. *)
Theorem C3_delegate h r childName rest :
  installed (children h) →
  ((∀ c, c ∈ children h → Name c ≠ childName) →
     delegate h (childName :: rest) r =
       Some (childName,
             {| http.StatusCode := http.StatusNotFound;
                http.ResponseBody := EmptyString |}))
  ∧ (∀ c, c ∈ children h → Name c = childName →
       ∃ child proxy,
         GetChild h childName = Some child
         ∧ child ∈ children h ∧ Name child = childName
         ∧ rp child = Some proxy
         ∧ match url_Parse (BaseURL child) with
           | inr err =>
               delegate h (childName :: rest) r =
                 Some (childName,
                       {| http.StatusCode := http.StatusInternalServerError;
                          http.ResponseBody := err |})
           | inl u =>
               delegate h (childName :: rest) r =
                 Some (childName,
                       ReverseProxy_ServeHTTP proxy
                         {| http.Method := http.Method r;
                            http.URL :=
                              {| url.Scheme := url.Scheme u;
                                 url.Host := url.Host u;
                                 url.Path :=
                                   path_Join [url.Path u; shared_Join rest];
                                 url.RawQuery := url.RawQuery u |};
                            http.Host := url.Host u;
                            http.Body := http.Body r |})
           end).
Proof.
  intros Hinst. split.
  - intros Habsent. apply (GetChild_None h childName Hinst) in Habsent.
    unfold delegate. by rewrite Habsent.
  - intros c Hc Hname.
    destruct (GetChild h childName) as [child|] eqn:Hget.
    2:{ by destruct (proj1 (GetChild_None h childName Hinst) Hget c Hc). }
    destruct (GetChild_Some h childName child Hinst Hget) as [Hin Hchild].
    destruct Hinst as [_ Hrp]. rewrite Forall_forall in Hrp.
    destruct (Hrp child Hin) as [proxy Hproxy].
    exists child, proxy. repeat (split; [done|]).
    unfold delegate. rewrite Hget, Hproxy.
    by destruct (url_Parse (BaseURL child)).
Qed.

End HandlerClaims.

(** ** The handler claims on examples *)
Section HandlerExamples.
Import compositedav.

Lemma X18_routes_by_depth_witness :
  http.Method (request "GET" "/a/x") ≠ "PROPFIND"
  ∧ routesByDepth (H := exampleExtern) handlerA (request "GET" "/a/x").
Proof.
  split; [done|].
  apply (X18_routes_by_depth (H := exampleExtern) handlerA (request "GET" "/a/x")).
  done.
Defined.

Lemma C4_invalidate_before_routing_witness :
  Handler_StatCache cachingHandler
    = Some (set {| TTL := 1000000000; caches := None |} "/a" 1 (Some [Byte.x31]) 0)
  ∧ nonRead (http.Method (request "PUT" "/a/x"))
  ∧ invalidatesFirst (H := exampleExtern) cachingHandler (request "PUT" "/a/x")
  ∧ Handler_StatCache
      (after (ServeHTTP (H := exampleExtern) cachingHandler (request "PUT" "/a/x")))
    = Some (invalidate
              (set {| TTL := 1000000000; caches := None |} "/a" 1 (Some [Byte.x31]) 0)).
Proof.
  split; [reflexivity|]. split; [by split|].
  apply (C4_invalidate_before_routing (H := exampleExtern) cachingHandler
           (request "PUT" "/a/x")
           (set {| TTL := 1000000000; caches := None |} "/a" 1 (Some [Byte.x31]) 0)).
  - reflexivity.
  - by split.
Defined.

(** A PUT on a handler without StatCache: a non-read request, routed
    without any invalidation. *)
Lemma C4_no_cache_no_invalidate :
  nonRead (http.Method (request "PUT" "/a/x"))
  ∧ calls (ServeHTTP (H := exampleExtern) handlerA (request "PUT" "/a/x"))
      = [CallDelegate ["a"; "x"]]
  ∧ ¬ invalidatesFirst (H := exampleExtern) handlerA (request "PUT" "/a/x").
Proof.
  split; [by split|]. split; [done|].
  intros (route & Hcalls & _). vm_compute in Hcalls. discriminate Hcalls.
Qed.

Lemma C3_delegate_witness :
  installed (children cachingHandler)
  ∧ delegate (H := exampleExtern) cachingHandler ["a"; "x"] (request "GET" "/a/x")
      = Some ("a", {| http.StatusCode := 200; http.ResponseBody := "/srv/a/x" |})
  ∧ delegate (H := exampleExtern) cachingHandler ["c"; "x"] (request "GET" "/c/x")
      = Some ("c", {| http.StatusCode := 404; http.ResponseBody := EmptyString |}).
Proof.
  assert (installed (children cachingHandler)) as Hinst.
  { apply (bool_decide_unpack _). by vm_compute. }
  split; [done|]. split.
  - destruct (C3_delegate (H := exampleExtern) cachingHandler
                (request "GET" "/a/x") "a" ["x"] Hinst) as [_ Hfound].
    destruct (Hfound (init childA)) as (child & proxy & Hget & _ & _ & Hrp & Hres).
    { apply (bool_decide_unpack _). by vm_compute. }
    { reflexivity. }
    vm_compute in Hget. injection Hget as <-.
    vm_compute in Hrp. injection Hrp as <-.
    exact Hres.
  - apply (C3_delegate (H := exampleExtern) cachingHandler
             (request "GET" "/c/x") "c" ["x"] Hinst).
    apply (proj1 (Forall_forall (λ c, Name c ≠ "c") (children cachingHandler))).
    apply (bool_decide_unpack _). by vm_compute.
Defined.

End HandlerExamples.

(** * The virtual directory file system *)
Section DirfsFacts.
Import dirfs.

Implicit Types (fs : FS) (path : string).

Lemma childFor_is_Some fs name :
  is_Some (childFor fs name) ↔ ∃ c, c ∈ Children fs ∧ Name c = name.
Proof.
  unfold childFor. split.
  - intros [c Hc]. apply find_some in Hc as [Hin Heq].
    exists c. split; [by apply list_elem_of_In|]. by apply String.eqb_eq.
  - intros (c & Hin & Hname).
    destruct (find (λ c, String.eqb (Name c) name) (Children fs)) as [c'|] eqn:Hfind;
      [by eexists|].
    apply list_elem_of_In in Hin.
    pose proof (find_none _ _ Hfind c Hin) as Hno. simpl in Hno.
    apply String.eqb_neq in Hno. done.
Qed.

(** [resolve] finds a node exactly for the paths that name one. *)
Lemma resolve_namesVirtual fs path :
  is_Some (resolve fs path) ↔ namesVirtual fs (segments path).
Proof.
  unfold resolve. destruct (segments path) as [|s [|n [|m rest]]].
  - split; [constructor | by eexists].
  - destruct (decide (StaticRoot fs = EmptyString)) as [Hroot|Hroot].
    + rewrite fmap_is_Some, childFor_is_Some. split.
      * intros (c & Hin & <-). by apply names_backend.
      * inversion 1; subst; [done|]. eauto.
    + destruct (decide (s = StaticRoot fs)) as [->|Hs]; split.
      * intros _. by apply names_static_root.
      * by eexists.
      * by intros [? ?].
      * inversion 1; subst; done.
  - destruct (decide (StaticRoot fs = EmptyString)) as [Hroot|Hroot].
    + split; [by intros [? ?]|]. inversion 1; subst; done.
    + destruct (decide (s = StaticRoot fs)) as [->|Hs].
      * rewrite fmap_is_Some, childFor_is_Some. split.
        -- intros (c & Hin & <-). by apply names_backend_below.
        -- inversion 1; subst. eauto.
      * split; [by intros [? ?]|]. inversion 1; subst; done.
  - split; [by intros [? ?]|]. inversion 1.
Qed.

(** C8: for a source path that names a virtual-level node, the root among
    them, [RemoveAll] and [Rename], whatever the new path, fail with
    Permission-Denied and leave the file system as it was. *)
Theorem C8_virtual_nodes_stay fs path newPath :
  namesVirtual fs (segments path) →
  RemoveAll fs path = (fs, Some ErrPermission)
  ∧ Rename fs path newPath = (fs, Some ErrPermission)
  ∧ is_Some (resolve (RemoveAll fs path).1 path)
  ∧ is_Some (resolve (Rename fs path newPath).1 path).
Proof.
  intros Hv. repeat split; by apply resolve_namesVirtual.
Qed.

(** The cases of TestRemoveAll and TestRename in dirfs_test.go. *)
Lemma C8_virtual_nodes_stay_witness :
  namesVirtual testFS (segments "/")
  ∧ RemoveAll testFS "/" = (testFS, Some ErrPermission)
  ∧ Rename testFS "/" "/domain/remote2/copy.txt" = (testFS, Some ErrPermission).
Proof.
  assert (namesVirtual testFS (segments "/")) as Hroot by constructor.
  split; [done|].
  destruct (C8_virtual_nodes_stay testFS "/" "/domain/remote2/copy.txt" Hroot)
    as (Hrm & Hmv & _).
  by split.
Defined.

(** C9: [Mkdir] on a path naming an existing virtual node (the root, the
    static root, a registered backend) succeeds and changes nothing; on
    every other path it fails with Permission-Denied, and changes nothing
    either. *)
Theorem C9_mkdir fs path :
  (namesVirtual fs (segments path) → Mkdir fs path = (fs, None))
  ∧ (¬ namesVirtual fs (segments path) →
       Mkdir fs path = (fs, Some ErrPermission)).
Proof.
  rewrite <- resolve_namesVirtual. unfold Mkdir.
  destruct (resolve fs path) as [node|]; split; try done.
  intros Hno. destruct Hno. by eexists.
Qed.

(** The cases of TestMkdir in dirfs_test.go. *)
Lemma C9_mkdir_witness :
  Mkdir testFS "/" = (testFS, None)
  ∧ Mkdir testFS "/domain" = (testFS, None)
  ∧ Mkdir testFS "/domain/remote1" = (testFS, None)
  ∧ ¬ namesVirtual testFS (segments "/domain/remote3")
  ∧ Mkdir testFS "/domain/remote3" = (testFS, Some ErrPermission).
Proof.
  assert (¬ namesVirtual testFS (segments "/domain/remote3")) as Hno.
  { rewrite <- resolve_namesVirtual. by intros [? ?]. }
  split; [|split; [|split; [|split; [done|]]]].
  - apply (C9_mkdir testFS "/"). constructor.
  - apply (C9_mkdir testFS "/domain"). by apply (names_static_root testFS).
  - apply (C9_mkdir testFS "/domain/remote1").
    apply (names_backend_below testFS {| Name := "remote1" |}); [done|].
    apply (bool_decide_unpack _). by vm_compute.
  - by apply (C9_mkdir testFS "/domain/remote3").
Defined.

(** The cases of TestStat. *)
Example TestStat now :
  Stat testFS now EmptyString
    = inl {| Named := EmptyString; Sized := 0; ModdedTime := now; Dir := true |}
  ∧ Stat testFS now "/domain"
    = inl {| Named := "domain"; Sized := 0; ModdedTime := now; Dir := true |}
  ∧ Stat testFS now "/domain/remote1"
    = inl {| Named := "remote1"; Sized := 0; ModdedTime := now; Dir := true |}
  ∧ Stat testFS now "/domain/remote2"
    = inl {| Named := "remote2"; Sized := 0; ModdedTime := now; Dir := true |}
  ∧ Stat testFS now "remote3" = inr ErrNotExist.
Proof. done. Qed.

End DirfsFacts.

(** * The metadata cache on an example *)
Section StatCacheExamples.
Import compositedav.

Lemma C7_invalidate_witness :
  unexpired (ttlAt exampleCache 1) 10 20
  ∧ (get (invalidate exampleCache) "file" 1 5).1 = None
  ∧ (∃ cache', subcache (invalidate exampleCache) 1 = Some cache'
               ∧ ttlcache.running cache' = true
               ∧ ttlcache.items cache' = ∅)
  ∧ (get (set (invalidate exampleCache) "file" 1 (Some [Byte.x32]) 10) "file" 1 20).1
    = Some [Byte.x32].
Proof.
  assert (unexpired (ttlAt exampleCache 1) 10 20) as Hlive.
  { right. vm_compute. discriminate. }
  split; [done|].
  destruct (C7_invalidate exampleCache "file" 1 (Some [Byte.x32]) 5 10 20 Hlive)
    as (Hgone & Hkept & _ & Hagain).
  split; [apply Hgone|]. split; [|apply Hagain].
  destruct (Hkept 1 (ttlcache.Set' (ttlcache.Start (ttlcache.New 1000000000))
                       "file" (Some [Byte.x31]) ttlcache.DefaultTTL 0))
    as (cache' & Hsub & _ & Hrun & Hitems); [by vm_compute|].
  exists cache'. by repeat split.
Defined.

End StatCacheExamples.

(** * More on the metadata cache *)
Section StatCacheMore.
Import compositedav.

Implicit Types (c : StatCache) (name : string) (depth : Z) (value : bytes).

Lemma subcache_set_eq c name depth value now :
  ∃ cache, subcache (set c name depth value now) depth = Some cache
    ∧ ttlcache.options_ttl cache = ttlAt c depth
    ∧ ttlcache.running cache =
        match subcache c depth with
        | Some old => ttlcache.running old
        | None => true
        end.
Proof.
  unfold subcache, set, ttlAt, subcache; simpl. rewrite lookup_insert_eq.
  eexists. split; [done|].
  destruct (caches c) as [m|]; simpl; [destruct (m !! depth)|]; done.
Qed.

Lemma subcache_set_ne c name depth value now depth' :
  depth ≠ depth' →
  subcache (set c name depth value now) depth' = subcache c depth'.
Proof.
  intros Hne. unfold subcache, set; simpl. rewrite lookup_insert_ne by done.
  by destruct (caches c).
Qed.

Lemma ttlAt_set c name depth value now depth' :
  ttlAt (set c name depth value now) depth' = ttlAt c depth'.
Proof.
  destruct (decide (depth = depth')) as [<-|Hne].
  - destruct (subcache_set_eq c name depth value now) as (cache & Hsub & Httl & _).
    unfold ttlAt at 1. by rewrite Hsub.
  - unfold ttlAt. by rewrite subcache_set_ne.
Qed.

(** What [get] leaves in the map: on a live hit the sub-cache of the depth
    with the item touched, else what was there. *)
Lemma subcache_get c name depth now depth' :
  subcache (get c name depth now).2 depth' =
  match stored c name depth with
  | Some it =>
      if ttlcache.IsExpired it now then subcache c depth'
      else if decide (depth = depth')
           then (λ cache,
                   {| ttlcache.options_ttl := ttlcache.options_ttl cache;
                      ttlcache.items :=
                        <[name := ttlcache.touch it now]> (ttlcache.items cache);
                      ttlcache.running := ttlcache.running cache |})
                  <$> subcache c depth
           else subcache c depth'
  | None => subcache c depth'
  end.
Proof.
  unfold get, stored, subcache, ttlcache.Get.
  destruct (caches c) as [m|] eqn:Hc; simpl; [|by rewrite Hc].
  destruct (m !! depth) as [cache|] eqn:Hm; simpl; [|by rewrite Hc].
  destruct (ttlcache.items cache !! name) as [it|]; simpl; [|by rewrite Hc].
  destruct (ttlcache.IsExpired it now); simpl; [by rewrite Hc|].
  case_decide as Hd.
  - subst depth'. by rewrite lookup_insert_eq.
  - by rewrite lookup_insert_ne.
Qed.

(** X1: a second [set] on the same name and depth overwrites the first:
    the following [get] returns the second value, and the entry's lifetime
    counts from the second [set]. *)
Theorem X1_set_overwrites c name depth v1 v2 t0 t1 t2 :
  unexpired (ttlAt c depth) t1 t2 →
  (get (set (set c name depth v1 t0) name depth v2 t1) name depth t2).1 = v2.
Proof.
  intros Hlive. rewrite get_stored, stored_set_eq, ttlAt_set; simpl.
  rewrite (proj2 (newItem_IsExpired v2 _ t1 t2) Hlive).
  unfold ttlcache.newItem. apply touch_Value.
Qed.

Lemma X1_set_overwrites_witness :
  unexpired (ttlAt exampleCache 1) 2000000000 2500000000
  ∧ (get (set (set exampleCache "file" 1 (Some [Byte.x32]) 0)
            "file" 1 (Some [Byte.x33]) 2000000000) "file" 1 2500000000).1
    = Some [Byte.x33].
Proof.
  assert (unexpired (ttlAt exampleCache 1) 2000000000 2500000000) as Hlive.
  { right. vm_compute. discriminate. }
  split; [done|].
  exact (X1_set_overwrites exampleCache "file" 1 (Some [Byte.x32]) (Some [Byte.x33])
           0 2000000000 2500000000 Hlive).
Defined.

(** X2: a [set] changes the answer of [get] for its own (name, depth) pair
    only: every other name at the same depth and every name at another
    depth reads as before. *)
Theorem X2_set_frame c name depth value t0 name' depth' now :
  (name, depth) ≠ (name', depth') →
  (get (set c name depth value t0) name' depth' now).1 = (get c name' depth' now).1.
Proof. intros Hne. by rewrite !get_stored, stored_set_ne. Qed.

Lemma X2_set_frame_witness :
  ("other", 1) ≠ ("file", 1)
  ∧ (get (set exampleCache "other" 1 (Some [Byte.x32]) 5) "file" 1 10).1
    = (get exampleCache "file" 1 10).1.
Proof.
  assert (("other", 1) ≠ ("file", 1)) as Hne by done.
  split; [done|].
  exact (X2_set_frame exampleCache "other" 1 (Some [Byte.x32]) 5 "file" 1 10 Hne).
Defined.

(** X3: with a positive time-to-live, a [get] later than the time-to-live
    after the [set] returns absent (nil). *)
Theorem X3_expired_entry_absent c name depth value t0 t1 :
  0 < ttlAt c depth →
  t0 + ttlAt c depth < t1 →
  (get (set c name depth value t0) name depth t1).1 = None.
Proof.
  intros Hpos Hlate. rewrite get_stored, stored_set_eq; simpl.
  destruct (ttlcache.IsExpired (ttlcache.newItem value (ttlAt c depth) t0) t1) eqn:Hexp;
    [done|].
  apply newItem_IsExpired in Hexp. destruct Hexp; lia.
Qed.

(** The expiry step of TestStatCache: a time-to-live of one second, read
    two seconds after the write. *)
Lemma X3_expired_entry_absent_witness :
  0 < ttlAt {| TTL := 1000000000; caches := None |} 1
  ∧ 0 + ttlAt {| TTL := 1000000000; caches := None |} 1 < 2000000000
  ∧ (get (set {| TTL := 1000000000; caches := None |} "file" 1
            (Some [Byte.x31]) 0) "file" 1 2000000000).1 = None.
Proof.
  assert (0 < ttlAt {| TTL := 1000000000; caches := None |} 1) as Hpos by done.
  assert (0 + ttlAt {| TTL := 1000000000; caches := None |} 1 < 2000000000)
    as Hlate by done.
  split; [done|]. split; [done|].
  exact (X3_expired_entry_absent {| TTL := 1000000000; caches := None |} "file" 1
           (Some [Byte.x31]) 0 2000000000 Hpos Hlate).
Defined.

(** X4: an entry read twice within its lifetime is returned both times:
    the first [get] does not consume or damage it. *)
Theorem X4_get_again c name depth value t0 t1 t2 :
  t0 <= t1 → t1 <= t2 →
  unexpired (ttlAt c depth) t0 t2 →
  (get (set c name depth value t0) name depth t1).1 = value
  ∧ (get (get (set c name depth value t0) name depth t1).2 name depth t2).1 = value.
Proof.
  intros H01 H12 Hlive.
  assert (unexpired (ttlAt c depth) t0 t1) as Hlive1.
  { destruct Hlive; [by left | right; lia]. }
  pose proof (stored_set_eq c name depth value t0) as Hst.
  pose proof (proj2 (newItem_IsExpired value _ t0 t1) Hlive1) as Hexp.
  split.
  - rewrite get_stored, Hst; simpl. rewrite Hexp.
    unfold ttlcache.newItem. apply touch_Value.
  - rewrite get_stored. unfold stored at 1.
    rewrite subcache_get, Hst, Hexp, decide_True by done.
    unfold stored in Hst.
    destruct (subcache (set c name depth value t0) depth) as [cache|]; [|done].
    simpl. rewrite lookup_insert_eq. simpl.
    assert (ttlcache.IsExpired
              (ttlcache.touch (ttlcache.newItem value (ttlAt c depth) t0) t1) t2
            = false) as ->.
    { unfold ttlcache.IsExpired, ttlcache.newItem, ttlcache.touch; simpl.
      destruct (0 <? ttlAt c depth) eqn:Hpos; simpl; rewrite ?Hpos; simpl;
        rewrite ?Hpos; simpl.
      - apply Z.ltb_lt in Hpos. apply Z.ltb_ge. destruct Hlive; lia.
      - reflexivity. }
    rewrite touch_Value. unfold ttlcache.newItem. apply touch_Value.
Qed.

(** The first steps of TestStatCache: set, fetch, fetch again. *)
Lemma X4_get_again_witness :
  0 <= 100 ∧ 100 <= 200
  ∧ unexpired (ttlAt {| TTL := 1000000000; caches := None |} 1) 0 200
  ∧ (get (set {| TTL := 1000000000; caches := None |} "file" 1
            (Some [Byte.x31]) 0) "file" 1 100).1 = Some [Byte.x31]
  ∧ (get (get (set {| TTL := 1000000000; caches := None |} "file" 1
                 (Some [Byte.x31]) 0) "file" 1 100).2 "file" 1 200).1
    = Some [Byte.x31].
Proof.
  assert (unexpired (ttlAt {| TTL := 1000000000; caches := None |} 1) 0 200) as Hlive.
  { right. vm_compute. discriminate. }
  split; [lia|]. split; [lia|]. split; [done|].
  apply (X4_get_again {| TTL := 1000000000; caches := None |} "file" 1
           (Some [Byte.x31]) 0 100 200); [lia|lia|done].
Defined.

End StatCacheMore.

(** * More on the metadata cache: what the operations keep *)
Section StatCacheKeeps.
Import compositedav.

Implicit Types (c : StatCache) (name : string) (depth : Z) (value : bytes).

Lemma TTL_get c name depth now : TTL (get c name depth now).2 = TTL c.
Proof.
  unfold get. destruct (caches c) as [m|]; [|done].
  destruct (m !! depth) as [cache|]; [|done].
  by destruct (ttlcache.Get cache name now) as [[item|] cache'].
Qed.

Lemma stored_get c name depth now name' depth' :
  ttlcache.Value <$> stored (get c name depth now).2 name' depth'
  = ttlcache.Value <$> stored c name' depth'.
Proof.
  unfold stored at 1. rewrite subcache_get.
  destruct (stored c name depth) as [it|] eqn:Hst; [|done].
  destruct (ttlcache.IsExpired it now); [done|].
  case_decide as Hd; [|done]. subst depth'.
  unfold stored in *. destruct (subcache c depth) as [cache|]; [|done]. simpl in *.
  destruct (decide (name = name')) as [<-|Hn].
  - rewrite lookup_insert_eq, Hst. simpl. by rewrite touch_Value.
  - by rewrite lookup_insert_ne.
Qed.

(** X5: [get] creates no sub-cache and changes no cached value or the
    time-to-live; when there is no live entry under (name, depth) it
    returns nil and leaves the StatCache exactly as it was. *)
Theorem X5_get_creates_nothing c name depth now :
  (∀ depth', subcache (get c name depth now).2 depth' = None
             ↔ subcache c depth' = None)
  ∧ TTL (get c name depth now).2 = TTL c
  ∧ (∀ name' depth',
       ttlcache.Value <$> stored (get c name depth now).2 name' depth'
       = ttlcache.Value <$> stored c name' depth')
  ∧ ((∀ it, stored c name depth = Some it → ttlcache.IsExpired it now = true) →
       get c name depth now = (None, c)).
Proof.
  split; [|split; [apply TTL_get|split; [apply stored_get|]]].
  - intros depth'. rewrite subcache_get.
    destruct (stored c name depth) as [it|] eqn:Hst; [|done].
    destruct (ttlcache.IsExpired it now); [done|].
    case_decide as Hd; [|done]. subst depth'.
    by destruct (subcache c depth).
  - intros Hdead. unfold get, stored, subcache, ttlcache.Get in *.
    destruct (caches c) as [m|]; simpl in *; [|done].
    destruct (m !! depth) as [cache|]; simpl in *; [|done].
    destruct (ttlcache.items cache !! name) as [it|]; [|done].
    by rewrite (Hdead it eq_refl).
Qed.

Lemma X5_get_creates_nothing_witness :
  subcache (get exampleCache "file" 1 10).2 2 = None
  ∧ get exampleCache "missing" 1 10 = (None, exampleCache)
  ∧ get {| TTL := 1000000000; caches := None |} "file" 1 10
    = (None, {| TTL := 1000000000; caches := None |}).
Proof.
  split; [|split].
  - by apply (X5_get_creates_nothing exampleCache "file" 1 10).
  - apply (X5_get_creates_nothing exampleCache "missing" 1 10).
    intros it Hit. by vm_compute in Hit.
  - apply (X5_get_creates_nothing {| TTL := 1000000000; caches := None |} "file" 1 10).
    intros it Hit. by vm_compute in Hit.
Defined.

Lemma stop_returns c :
  started c →
  ∃ c', stop c = Some c'
    ∧ TTL c' = TTL c
    ∧ (caches c = None → c' = c)
    ∧ ∀ depth, subcache c' depth = stopped <$> subcache c depth.
Proof.
  intros Hst. unfold stop, started, subcache in *.
  destruct (caches c) as [m|] eqn:Hc; simpl in *.
  - rewrite decide_True.
    + eexists. split; [done|]. split; [done|]. split; [done|].
      intros depth. simpl. rewrite lookup_omap.
      destruct (m !! depth) as [cache|] eqn:Hm; [|done]. simpl.
      unfold ttlcache.Stop. by rewrite (proj1 (Hst depth cache Hm)).
    + intros depth cache Hm. unfold ttlcache.Stop.
      rewrite (proj1 (Hst depth cache Hm)). by eexists.
  - exists c. rewrite Hc. by repeat split.
Qed.

Lemma stop_blocks c depth cache :
  subcache c depth = Some cache → ttlcache.running cache = false → stop c = None.
Proof.
  unfold stop, subcache. destruct (caches c) as [m|]; simpl; [|done].
  intros Hm Hrun. rewrite decide_False; [done|].
  intros Hall. specialize (Hall depth cache Hm). simpl in Hall.
  unfold ttlcache.Stop in Hall. rewrite Hrun in Hall. by destruct Hall.
Qed.

(** X6: on a StatCache whose sub-caches are running, as [set] creates
    them, [stop] returns and halts the expiration loop of every sub-cache
    and nothing else: all sub-caches stay in the map with their entries,
    [get] answers as before, and a StatCache never written to is left as it
    was.  A second [stop] does not return when there is a sub-cache:
    nothing takes the stop signal of a loop that has ended. *)
Theorem X6_stop_keeps_entries c :
  started c →
  ∃ c', stop c = Some c'
    ∧ (∀ name depth now, (get c' name depth now).1 = (get c name depth now).1)
    ∧ (∀ depth cache, subcache c' depth = Some cache →
         ttlcache.running cache = false)
    ∧ (∀ depth, subcache c' depth = None ↔ subcache c depth = None)
    ∧ (caches c = None → c' = c)
    ∧ ((∃ depth, is_Some (subcache c depth)) → stop c' = None).
Proof.
  intros Hst. destruct (stop_returns c Hst) as (c' & Hstop & _ & Hnil & Hsub).
  exists c'. split; [done|]. split; [|split; [|split; [|split; [done|]]]].
  - intros name depth now. rewrite !get_stored. unfold stored.
    rewrite Hsub. by destruct (subcache c depth).
  - intros depth cache. rewrite Hsub.
    destruct (subcache c depth); [|done]. by intros [= <-].
  - intros depth. rewrite Hsub. by destruct (subcache c depth).
  - intros (depth & cache & Hcache).
    apply (stop_blocks c' depth (stopped cache)); [|done].
    by rewrite Hsub, Hcache.
Qed.

Lemma X6_stop_keeps_entries_witness :
  started exampleCache
  ∧ ∃ c', stop exampleCache = Some c'
      ∧ (get c' "file" 1 10).1 = Some [Byte.x31]
      ∧ stop c' = None.
Proof.
  assert (started exampleCache) as Hst.
  { intros depth cache Hsub.
    destruct (decide (depth = 1)) as [->|Hne].
    - vm_compute in Hsub. by injection Hsub as <-.
    - unfold exampleCache in Hsub. rewrite subcache_set_ne in Hsub by done.
      by vm_compute in Hsub. }
  split; [done|].
  destruct (X6_stop_keeps_entries exampleCache Hst)
    as (c' & Hstop & Hget & _ & _ & _ & Hagain).
  exists c'. split; [done|]. split.
  - by rewrite Hget.
  - apply Hagain. exists 1. by eexists.
Defined.

(** X7: the operations keep the sub-caches as [set] creates them: started,
    and with the time-to-live of the StatCache.  This holds of a StatCache
    never written to, is kept by [set], [get] and [invalidate], and makes
    the time-to-live of every depth the one of the StatCache. *)
Theorem X7_started_kept c name depth value now :
  started c →
  started (set c name depth value now)
  ∧ started (get c name depth now).2
  ∧ started (invalidate c)
  ∧ ttlAt c depth = TTL c.
Proof.
  intros Hst. split; [|split; [|split]].
  - intros depth' cache Hsub.
    destruct (decide (depth = depth')) as [<-|Hne].
    + destruct (subcache_set_eq c name depth value now) as (cache' & Hsub' & Httl & Hrun).
      rewrite Hsub in Hsub'. injection Hsub' as <-.
      rewrite Hrun, Httl. unfold ttlAt.
      destruct (subcache c depth) as [old|] eqn:Hold; [|done].
      apply (Hst depth old Hold).
    + rewrite subcache_set_ne in Hsub by done. apply (Hst depth' cache Hsub).
  - intros depth' cache. rewrite subcache_get, TTL_get.
    destruct (stored c name depth) as [it|]; [|apply Hst].
    destruct (ttlcache.IsExpired it now); [apply Hst|].
    case_decide as Hd; [|apply Hst]. subst depth'.
    destruct (subcache c depth) as [old|] eqn:Hold; [|done].
    intros [= <-]. apply (Hst depth old Hold).
  - intros depth' cache. rewrite subcache_invalidate.
    destruct (subcache c depth') as [old|] eqn:Hold; [|done].
    intros [= <-]. apply (Hst depth' old Hold).
  - unfold ttlAt. destruct (subcache c depth) as [old|] eqn:Hold; [|done].
    apply (Hst depth old Hold).
Qed.

Lemma X7_started_kept_witness :
  started {| TTL := 1000000000; caches := None |}
  ∧ started (set {| TTL := 1000000000; caches := None |} "file" 1 (Some [Byte.x31]) 0)
  ∧ started (invalidate {| TTL := 1000000000; caches := None |}).
Proof.
  assert (started {| TTL := 1000000000; caches := None |}) as Hzero.
  { intros depth cache Hsub. by vm_compute in Hsub. }
  split; [done|].
  destruct (X7_started_kept {| TTL := 1000000000; caches := None |} "file" 1
              (Some [Byte.x31]) 0 Hzero) as (Hset & _ & Hinv & _).
  by split.
Defined.

End StatCacheKeeps.

(** * More on the handler *)
Section HandlerMore.
Import compositedav.
Context `{Extern}.

Implicit Types (h : Handler) (r : http.Request) (c : Child) (cs : list Child).

Lemma search_range {E T : Type} fuel (x : list E) (target : T) cmp i j :
  (i ≤ j)%nat →
  (i ≤ slices.search fuel x target cmp i j ≤ j)%nat.
Proof.
  revert i j. induction fuel as [|fuel IH]; intros i j Hij; cbn [slices.search].
  - lia.
  - case_bool_decide as Hlt; [|lia].
    assert (i ≤ (i + j) / 2 < j)%nat as Hh.
    { pose proof (Nat.div_mod_eq (i + j) 2).
      pose proof (Nat.mod_upper_bound (i + j) 2). lia. }
    destruct (x !! ((i + j) / 2)%nat) as [e|]; [|lia].
    destruct (cmp e target <? 0).
    + pose proof (IH ((i + j) / 2 + 1)%nat j). lia.
    + pose proof (IH i ((i + j) / 2)%nat). lia.
Qed.

(** X8: on children sorted by name, the index [findChildLocked] returns is
    the place of the name in the order: within the slice or one past its
    end, every child before it has a smaller name, every child from it on
    has a name at least as large; the child returned is the one at that
    index, if it bears the name, and nil otherwise. *)
Theorem X8_findChildLocked_index h name :
  installed (children h) →
  ((findChildLocked h name).1 ≤ length (children h))%nat
  ∧ (∀ k c, (k < (findChildLocked h name).1)%nat → children h !! k = Some c →
       strings_Compare (Name c) name < 0)
  ∧ (∀ k c, ((findChildLocked h name).1 ≤ k)%nat → children h !! k = Some c →
       0 <= strings_Compare (Name c) name)
  ∧ (∀ c, (findChildLocked h name).2 = Some c ↔
          children h !! (findChildLocked h name).1 = Some c ∧ Name c = name).
Proof.
  intros [Hs _].
  pose proof (BinarySearchFunc_spec (children h) name
                (λ child name, strings_Compare (Name child) name)
                (sorted_cmp_mono _ name Hs)) as Hspec.
  pose proof (search_range (length (children h)) (children h) name
                (λ child name, strings_Compare (Name child) name)
                0 (length (children h)) (Nat.le_0_l _)) as Hrange.
  unfold findChildLocked.
  unfold slices.BinarySearchFunc in *. simpl in *.
  destruct Hspec as (Hlo & Hhi & Hfound).
  split; [lia|]. split; [exact Hlo|]. split; [exact Hhi|].
  intros c.
  destruct (children h !! slices.search (length (children h)) (children h) name
              (λ child name, strings_Compare (Name child) name)
              0 (length (children h))) as [e|] eqn:He; simpl.
  - case_bool_decide as Hz; simpl.
    + split; [intros [= <-]|by intros [? _]].
      split; [done|]. by apply strings_Compare_eq.
    + split; [done|]. intros [[= <-] Hname].
      destruct Hz. by apply strings_Compare_eq.
  - split; [done|]. by intros [? _].
Qed.

Lemma X8_findChildLocked_index_witness :
  installed (children cachingHandler)
  ∧ ((findChildLocked cachingHandler "ab").1 ≤ length (children cachingHandler))%nat
  ∧ (∀ c, (findChildLocked cachingHandler "b").2 = Some c ↔
          children cachingHandler !! (findChildLocked cachingHandler "b").1 = Some c
          ∧ Name c = "b").
Proof.
  assert (installed (children cachingHandler)) as Hinst.
  { apply (bool_decide_unpack _). by vm_compute. }
  split; [done|]. split.
  - by apply (X8_findChildLocked_index cachingHandler "ab").
  - by apply (X8_findChildLocked_index cachingHandler "b").
Defined.

(** X9: [SetChildren] installs exactly the children it is given, each with
    its proxy built, sorted by name, together with the static root, and
    leaves the StatCache alone; children that come with their proxy built
    are installed as they are. *)
Theorem X9_SetChildren_installs h root cs :
  installed (children (SetChildren h root cs).1)
  ∧ children (SetChildren h root cs).1 ≡ₚ init <$> cs
  ∧ (Forall (λ c, is_Some (rp c)) cs → children (SetChildren h root cs).1 ≡ₚ cs)
  ∧ staticRoot (SetChildren h root cs).1 = root
  ∧ Handler_StatCache (SetChildren h root cs).1 = Handler_StatCache h.
Proof.
  split; [apply SetChildren_installed|].
  split; [apply SetChildren_children|].
  split; [|done].
  intros Hinit. rewrite SetChildren_children.
  induction Hinit as [|c cs' [p Hp] _ IH]; [done|].
  rewrite fmap_cons, IH. unfold init. by rewrite Hp.
Qed.

Lemma X9_SetChildren_installs_witness :
  children (SetChildren handlerA "domain" [childB; childA]).1
    = [init childA; init childB]
  ∧ children (SetChildren handlerA "domain" [init childB; init childA]).1
    ≡ₚ [init childB; init childA].
Proof.
  split; [by vm_compute|].
  apply (X9_SetChildren_installs handlerA "domain" [init childB; init childA]).
  apply (bool_decide_unpack _). by vm_compute.
Defined.

Lemma GetChild_nil h name : children h = [] → GetChild h name = None.
Proof. intros Hnil. unfold GetChild, findChildLocked. by rewrite Hnil. Qed.

Lemma delegate_not_found h r childName rest :
  installed (children h) →
  (∀ c, c ∈ children h → Name c ≠ childName) →
  delegate h (childName :: rest) r =
    Some (childName,
          {| http.StatusCode := http.StatusNotFound;
             http.ResponseBody := EmptyString |}).
Proof.
  intros Hinst Habsent. apply (GetChild_None h childName Hinst) in Habsent.
  unfold delegate. by rewrite Habsent.
Qed.

Lemma delegate_returns h r childName rest :
  installed (children h) → is_Some (delegate h (childName :: rest) r).
Proof.
  intros Hinst. unfold delegate.
  destruct (GetChild h childName) as [child|] eqn:Hget; [|by eexists].
  destruct (GetChild_Some h childName child Hinst Hget) as [Hin _].
  destruct Hinst as [_ Hrp]. rewrite Forall_forall in Hrp.
  destruct (Hrp child Hin) as [proxy ->].
  destruct (url_Parse (BaseURL child)); by eexists.
Qed.

(** X10: on a handler whose children are as [SetChildren] leaves them, a
    request other than PROPFIND always gets a response: [ServeHTTP] never
    indexes an empty slice of path components and never calls a proxy that
    was not built. *)
Theorem X10_ServeHTTP_responds h r :
  installed (children h) →
  http.Method r ≠ "PROPFIND" →
  is_Some (written (ServeHTTP h r)).
Proof.
  intros Hinst Hm.
  destruct (ServeHTTP_not_PROPFIND h r Hm)
    as (h' & inv & _ & _ & Hch & _ & Hroute).
  simpl in Hroute. case_decide as Hlen; destruct Hroute as [_ ->]; [|by eexists].
  destruct (drop (maxPathLength h r - 1)
              (shared_CleanAndSplit (url.Path (http.URL r)))) as [|name rest] eqn:Hdrop.
  { apply (f_equal length) in Hdrop. rewrite length_drop in Hdrop. simpl in Hdrop.
    assert (1 ≤ maxPathLength h r)%nat by (unfold maxPathLength; case_decide; lia).
    lia. }
  rewrite <- Hch in Hinst.
  destruct (delegate_returns h' r name rest Hinst) as [res ->]. by eexists.
Qed.

End HandlerMore.

(** ** More on the handler, on examples *)
Section HandlerMoreExamples.
Import compositedav.

Lemma X10_ServeHTTP_responds_witness :
  installed (children cachingHandler)
  ∧ http.Method (request "DELETE" "/b/file.txt") ≠ "PROPFIND"
  ∧ is_Some (written (ServeHTTP (H := exampleExtern) cachingHandler
                        (request "DELETE" "/b/file.txt"))).
Proof.
  assert (installed (children cachingHandler)) as Hinst.
  { apply (bool_decide_unpack _). by vm_compute. }
  split; [done|]. split; [done|].
  by apply (X10_ServeHTTP_responds (H := exampleExtern) cachingHandler
              (request "DELETE" "/b/file.txt")).
Defined.

End HandlerMoreExamples.

(** * The handler end to end *)
Section HandlerEndToEnd.
Import compositedav.
Context `{Extern}.

Implicit Types (h : Handler) (r : http.Request) (c : Child).

Lemma maxPathLength_pos h r : (1 ≤ maxPathLength h r)%nat.
Proof. unfold maxPathLength. case_decide; lia. Qed.

(** X11: a request other than PROPFIND with enough path segments to be
    delegated, whose backend segment is the name of no installed child, is
    answered 404 Not Found with an empty body, whatever its method. *)
Theorem X11_unknown_backend_not_found h r name :
  installed (children h) →
  http.Method r ≠ "PROPFIND" →
  shared_CleanAndSplit (url.Path (http.URL r)) !! (maxPathLength h r - 1)%nat
    = Some name →
  (∀ c, c ∈ children h → Name c ≠ name) →
  written (ServeHTTP h r) =
    Some {| http.StatusCode := 404; http.ResponseBody := EmptyString |}.
Proof.
  intros Hinst Hm Hseg Habsent.
  destruct (ServeHTTP_not_PROPFIND h r Hm)
    as (h' & inv & _ & _ & Hch & _ & Hroute).
  simpl in Hroute. pose proof (maxPathLength_pos h r) as Hpos.
  pose proof (lookup_lt_Some _ _ _ Hseg) as Hlt.
  rewrite decide_True in Hroute by lia. destruct Hroute as [_ ->].
  rewrite (drop_S _ name (maxPathLength h r - 1)) by done.
  rewrite <- Hch in Hinst, Habsent.
  by rewrite (delegate_not_found h' r name _ Hinst Habsent).
Qed.

(** A handler without children answers Not-Found to every request other
    than PROPFIND that is long enough to be delegated. *)
Lemma no_children_not_found h r :
  children h = [] →
  http.Method r ≠ "PROPFIND" →
  (maxPathLength h r ≤ length (shared_CleanAndSplit (url.Path (http.URL r))))%nat →
  written (ServeHTTP h r) =
    Some {| http.StatusCode := http.StatusNotFound;
            http.ResponseBody := EmptyString |}.
Proof.
  intros Hnil Hm Hlen. pose proof (maxPathLength_pos h r) as Hpos.
  destruct (shared_CleanAndSplit (url.Path (http.URL r)) !! (maxPathLength h r - 1)%nat)
    as [name|] eqn:Hseg.
  2:{ apply lookup_ge_None in Hseg. lia. }
  destruct (ServeHTTP_not_PROPFIND h r Hm)
    as (h' & inv & _ & _ & Hch & _ & Hroute).
  cbv zeta in Hroute.
  rewrite decide_True in Hroute by lia. destruct Hroute as [_ ->].
  rewrite (drop_S _ name (maxPathLength h r - 1)) by done.
  rewrite (delegate_not_found h' r name); [done| |].
  - rewrite Hch, Hnil. apply installed_nil.
  - rewrite Hch, Hnil. intros c Hc. by apply elem_of_nil in Hc.
Qed.

(** X12: [Close] calls [CloseIdleConnections] on exactly the children that
    were installed; on a handler without StatCache, or with one whose
    sub-caches are running, it returns, leaving no child installed, the
    static root as it was and the StatCache stopped.  Afterwards [GetChild]
    finds no name and every request other than PROPFIND that is long
    enough to be delegated is answered Not-Found.  A second [Close] does
    not return when the StatCache has a sub-cache: its [stop] blocks. *)
Theorem X12_Close h :
  (∀ sc, Handler_StatCache h = Some sc → started sc) →
  (Close h).2 = children h
  ∧ ∃ h', (Close h).1 = Some h'
      ∧ children h' = []
      ∧ staticRoot h' = staticRoot h
      ∧ Handler_StatCache h' = Handler_StatCache h ≫= stop
      ∧ (∀ name, GetChild h' name = None)
      ∧ (∀ r, http.Method r ≠ "PROPFIND" →
           (maxPathLength h r
            ≤ length (shared_CleanAndSplit (url.Path (http.URL r))))%nat →
           written (ServeHTTP h' r) =
             Some {| http.StatusCode := http.StatusNotFound;
                     http.ResponseBody := EmptyString |})
      ∧ ((∃ sc depth, Handler_StatCache h = Some sc ∧ is_Some (subcache sc depth)) →
           (Close h').1 = None).
Proof.
  intros Hst. split; [done|].
  assert (∃ h', (Close h).1 = Some h' ∧ children h' = []
                ∧ staticRoot h' = staticRoot h
                ∧ Handler_StatCache h' = Handler_StatCache h ≫= stop
                ∧ ((∃ sc depth, Handler_StatCache h = Some sc
                               ∧ is_Some (subcache sc depth)) →
                     (Close h').1 = None)) as (h' & Hclose & Hnil & Hroot & Hcache & Hagain).
  { unfold Close. destruct (Handler_StatCache h) as [sc|] eqn:Hc; simpl.
    - destruct (stop_returns sc (Hst sc eq_refl)) as (c' & Hstop & _ & _ & Hsub).
      rewrite Hstop. simpl. eexists. split; [done|]. simpl.
      do 3 (split; [done|]).
      intros (c0 & depth & [= <-] & cache & Hcache).
      rewrite (stop_blocks c' depth (stopped cache)); [done| |done].
      by rewrite Hsub, Hcache.
    - eexists. split; [done|]. simpl. do 3 (split; [done|]).
      by intros (c0 & depth & [=] & _). }
  exists h'. do 4 (split; [done|]). split; [|split; [|done]].
  - intros name. by apply GetChild_nil.
  - intros r Hm Hlen. apply no_children_not_found; [done..|].
    unfold maxPathLength in *. by rewrite Hroot.
Qed.

(** X13: a request other than PROPFIND never changes the children or the
    static root of the handler; a GET, and any request on a handler without
    StatCache, leaves the handler exactly as it was. *)
Theorem X13_ServeHTTP_keeps h r :
  http.Method r ≠ "PROPFIND" →
  children (after (ServeHTTP h r)) = children h
  ∧ staticRoot (after (ServeHTTP h r)) = staticRoot h
  ∧ (http.Method r = "GET" ∨ Handler_StatCache h = None →
       after (ServeHTTP h r) = h).
Proof.
  intros Hm. destruct (ServeHTTP_not_PROPFIND h r Hm)
    as (h' & inv & Hinv & Hroot & Hch & -> & _).
  split; [done|]. split; [done|]. intros Hsame.
  destruct (Handler_StatCache h) as [c|].
  - destruct Hsame as [Hget|]; [|done].
    rewrite decide_False in Hinv by (intros Hne; by apply Hne).
    by injection Hinv as -> _.
  - by injection Hinv as -> _.
Qed.

(** X14: after a request whose method is neither GET nor PROPFIND, on a
    handler with a StatCache, the cache answers no [get]: every listing
    cached before the request is gone. *)
Theorem X14_mutation_empties_cache h r cache :
  Handler_StatCache h = Some cache →
  nonRead (http.Method r) →
  ∃ cache', Handler_StatCache (after (ServeHTTP h r)) = Some cache'
    ∧ ∀ name depth now, (get cache' name depth now).1 = None.
Proof.
  intros Hc [Hget Hprop]. destruct (ServeHTTP_not_PROPFIND h r Hprop)
    as (h' & inv & Hinv & _ & _ & -> & _).
  rewrite Hc, decide_True in Hinv by done. injection Hinv as -> _.
  exists (invalidate cache). split; [done|].
  intros name depth now. by rewrite get_stored, stored_invalidate.
Qed.

End HandlerEndToEnd.

(** ** The handler end to end, on examples *)
Section HandlerEndToEndExamples.
Import compositedav.

Lemma X11_unknown_backend_not_found_witness :
  installed (children cachingHandler)
  ∧ http.Method (request "PUT" "/c/file.txt") ≠ "PROPFIND"
  ∧ written (ServeHTTP (H := exampleExtern) cachingHandler (request "PUT" "/c/file.txt"))
    = Some {| http.StatusCode := 404; http.ResponseBody := EmptyString |}.
Proof.
  assert (installed (children cachingHandler)) as Hinst.
  { apply (bool_decide_unpack _). by vm_compute. }
  split; [done|]. split; [done|].
  apply (X11_unknown_backend_not_found (H := exampleExtern) cachingHandler
           (request "PUT" "/c/file.txt") "c"); [done|done|done|].
  apply (proj1 (Forall_forall (λ c, Name c ≠ "c") (children cachingHandler))).
  apply (bool_decide_unpack _). by vm_compute.
Defined.

Lemma X12_Close_witness :
  (∀ c, Handler_StatCache cachingHandler = Some c → started c)
  ∧ closedTransports (Close cachingHandler).2 = [1%nat; 2%nat]
  ∧ ∃ h', (Close cachingHandler).1 = Some h'
      ∧ written (ServeHTTP (H := exampleExtern) h' (request "GET" "/a/file.txt"))
        = Some {| http.StatusCode := 404; http.ResponseBody := EmptyString |}
      ∧ (Close h').1 = None.
Proof.
  assert (∀ c, Handler_StatCache cachingHandler = Some c → started c) as Hst.
  { intros c [= <-] depth cache Hsub.
    destruct (decide (depth = 1)) as [->|Hne].
    - vm_compute in Hsub. by injection Hsub as <-.
    - rewrite subcache_set_ne in Hsub by done. by vm_compute in Hsub. }
  split; [done|]. split; [by vm_compute|].
  destruct (X12_Close (H := exampleExtern) cachingHandler Hst)
    as (_ & h' & Hclose & _ & _ & _ & _ & Hnf & Hagain).
  exists h'. split; [done|]. split.
  - apply Hnf; [done|]. vm_compute. lia.
  - apply Hagain. eexists _, 1. split; [reflexivity|]. by eexists.
Defined.

Lemma X13_ServeHTTP_keeps_witness :
  http.Method (request "GET" "/a/file.txt") ≠ "PROPFIND"
  ∧ after (ServeHTTP (H := exampleExtern) cachingHandler (request "GET" "/a/file.txt"))
    = cachingHandler.
Proof.
  split; [done|].
  apply (X13_ServeHTTP_keeps (H := exampleExtern) cachingHandler
           (request "GET" "/a/file.txt")); [done|by left].
Defined.

Lemma X14_mutation_empties_cache_witness :
  nonRead (http.Method (request "MKCOL" "/a/dir"))
  ∧ ∃ cache',
      Handler_StatCache
        (after (ServeHTTP (H := exampleExtern) cachingHandler (request "MKCOL" "/a/dir")))
      = Some cache'
      ∧ ∀ name depth now, (get cache' name depth now).1 = None.
Proof.
  assert (nonRead (http.Method (request "MKCOL" "/a/dir"))) as Hm by (by split).
  split; [done|].
  apply (X14_mutation_empties_cache (H := exampleExtern) cachingHandler
           (request "MKCOL" "/a/dir")
           (set {| TTL := 1000000000; caches := None |} "/a" 1 (Some [Byte.x31]) 0));
    [reflexivity|done].
Defined.

End HandlerEndToEndExamples.

(** * Who may edit: [canEdit] *)
Section AuthFacts.
Import auth.

(** X15: [canEdit] grants a capability exactly to an authorized viewer
    whose identity is present and holds the wildcard capability or the
    capability asked for, set to true; a missing identity, a missing
    capability or an unauthorized session never edits. *)
Theorem X15_canEdit_iff cap a :
  canEdit cap a = true ↔
    authorized a = true
    ∧ ∃ identity, viewerIdentity a = Some identity
        ∧ (capabilities identity CapAll = Some true
           ∨ capabilities identity cap = Some true).
Proof.
  unfold canEdit, isTrue. destruct (authorized a); [|by split; [|intros [? _]]].
  destruct (viewerIdentity a) as [identity|].
  2:{ split; [done|]. by intros (_ & ? & ? & _). }
  split.
  - intros Hedit. split; [done|]. exists identity. split; [done|].
    destruct (capabilities identity CapAll) as [[|]|]; [by left|..];
      destruct (capabilities identity cap) as [[|]|]; by (done || right).
  - intros (_ & identity' & [= <-] & [-> | Hcap]); [done|].
    rewrite Hcap. by destruct (capabilities identity CapAll) as [[|]|].
Qed.

(** X16: a viewer who can edit the wildcard capability can edit every
    capability. *)
Theorem X16_wildcard_edits_all a :
  canEdit CapAll a = true →
  ∀ cap, canEdit cap a = true.
Proof.
  unfold canEdit, isTrue. intros Hall cap.
  destruct (authorized a); [|done].
  destruct (viewerIdentity a) as [identity|]; [|done].
  by destruct (capabilities identity CapAll) as [[|]|].
Qed.

Lemma X16_wildcard_edits_all_witness :
  canEdit CapAll owner = true ∧ canEdit CapSSH owner = true.
Proof.
  assert (canEdit CapAll owner = true) as Hall by reflexivity.
  split; [done|]. exact (X16_wildcard_edits_all owner Hall CapSSH).
Defined.

End AuthFacts.

(** * Listing requests and the cache *)
Section ListingRequests.
Import compositedav.
Context `{Extern}.

Implicit Types (h : Handler) (r : http.Request).




End ListingRequests.

(** ** Listing requests and the cache, on an example *)
Section ListingRequestsExamples.
Import compositedav.


End ListingRequestsExamples.
